(** * Anchor generation and ground-truth assignment of efficientdet-tf

    A shallow embedding of [efficientdet/utils/anchors.py]:
    [AnchorGenerator] ([_generate], [__len__],
    [tile_anchors_over_feature_map]), [compute_gt_annotations],
    [anchor_targets_bbox] and [bbox_transform], and of [generate_anchors] of
    [test/voc_ds_test.py], followed by the properties the specification
    states about them and by further properties of the code.

    Conventions of the embedding.

    - A floating-point scalar is a [spec_float] of the Standard Library
      (IEEE 754 values with their signed zeros, infinities and NaN), and
      every operation rounds to nearest even.  The arithmetic of a numpy
      [float64] array is [SFmul 53 1024] and friends, with gradual
      underflow.  The kernels of TensorFlow run with the processor in
      flush-to-zero and denormals-are-zero mode, in float32 and in float64:
      an arithmetic, comparison or arg-max kernel reads a subnormal operand
      as a zero, and an arithmetic kernel or a narrowing [tf.cast] writes a
      zero for a result that is tiny after rounding, as x86-64 detects it.
    - The float tensors handed to [compute_gt_annotations] and
      [anchor_targets_bbox] are taken to be float64 tensors, as
      [AnchorGenerator] returns them, so that [tf.cast(_, tf.float64)] is
      the identity on them.
    - A tensor is a list along each of its leading axes.  A last axis of
      size 4 holding [(x1, y1, x2, y2)] is a [Box]; integer class labels are
      [Z]; boolean masks are [bool].
    - A TensorFlow operation that raises (an index out of range in
      [tf.gather_nd], an empty reduction axis in [tf.argmax], a [tf.reshape]
      whose sizes do not divide, operands of different shapes) makes the
      function return [None].  Inputs are taken to follow the shape contract
      of the docstrings (same batch size in [images], [bndboxes] and
      [labels]); where the operands of an element-wise operation would only
      agree through broadcasting an axis of size 1 against a larger one, the
      embedding reports the shape error. *)

From Stdlib Require Import ZArith Bool Lia.
From Stdlib Require Import Floats.SpecFloat.
From stdpp Require Import base tactics option list numbers.

(** ** Floating-point scalars *)

Definition float := spec_float.

(** TensorFlow runs its kernels with the processor in flush-to-zero and
    denormals-are-zero mode (as numpy and Python do not): a kernel reads a
    subnormal operand as the zero of its sign, and replaces a result that is
    tiny after rounding by the zero of its sign. *)

(** Below the least positive normal number [2 ^ (2 - emax)] of a format. *)
Definition is_subnormal (emax : Z) (x : float) : bool :=
  match x with
  | S754_finite _ m e => (Z.pos (digits2_pos m) + e <? 3 - emax)%Z
  | _ => false
  end.

(** At least [2 ^ emax], which is above the greatest finite number of the
    format. *)
Definition overflows (emax : Z) (x : float) : bool :=
  match x with
  | S754_finite _ m e => (emax <? Z.pos (digits2_pos m) + e)%Z
  | _ => false
  end.

Definition sign_of (x : float) : bool :=
  match x with
  | S754_zero s | S754_infinity s | S754_finite s _ _ => s
  | S754_nan => false
  end.

(** What a kernel reads from an operand. *)
Definition flush (emax : Z) (x : float) : float :=
  if is_subnormal emax x then S754_zero (sign_of x) else x.

(** An exponent bound that no result of an operation on numbers of the
    format reaches: rounding with it is rounding to [prec] digits with an
    unbounded exponent. *)
Definition unbounded (emax : Z) : Z := 4 * emax.

(** What a kernel writes for a result [r] that has been rounded to [prec]
    digits with an unbounded exponent: zero when [r] is tiny, an infinity
    when [r] is beyond the finite numbers, and [r] otherwise. *)
Definition tf_round (emax : Z) (r : float) : float :=
  if is_subnormal emax r then S754_zero (sign_of r)
  else if overflows emax r then S754_infinity (sign_of r)
  else r.

(** A binary arithmetic kernel. *)
Definition tf_op (prec emax : Z) (op : Z → Z → float → float → float)
    (x y : float) : float :=
  tf_round emax (op prec (unbounded emax) (flush emax x) (flush emax y)).

(** [tf.cast] to a narrower format. *)
Definition tf_narrow (prec emax : Z) (x : float) : float :=
  match x with
  | S754_finite s m e =>
      tf_round emax (binary_round prec (unbounded emax) s m e)
  | _ => x
  end.

(** [tf.float32] *)
Module F32.
Definition prec : Z := 24.
Definition emax : Z := 128.
Definition add : float → float → float := tf_op prec emax SFadd.
Definition sub : float → float → float := tf_op prec emax SFsub.
Definition mul : float → float → float := tf_op prec emax SFmul.
Definition div : float → float → float := tf_op prec emax SFdiv.
(** conversion of a Python [int] *)
Definition of_Z (z : Z) : float := binary_normalize prec emax z 0 false.
(** [tf.cast(_, tf.float32)] *)
Definition cast (x : float) : float := tf_narrow prec emax x.
End F32.

(** [tf.float64], and Python [float] literals *)
Module F64.
Definition prec : Z := 53.
Definition emax : Z := 1024.
Definition add : float → float → float := tf_op prec emax SFadd.
Definition sub : float → float → float := tf_op prec emax SFsub.
Definition mul : float → float → float := tf_op prec emax SFmul.
Definition div : float → float → float := tf_op prec emax SFdiv.
Definition of_Z (z : Z) : float := binary_normalize prec emax z 0 false.
(** [tf.cast(_, tf.float64)]: the identity on a float64 tensor, and exact
    on a float32 tensor. *)
Definition cast (x : float) : float :=
  match x with
  | S754_finite s m e => binary_round prec emax s m e
  | _ => x
  end.
End F64.

(** numpy [float64]: IEEE 754 arithmetic with gradual underflow. *)
Module Np.
Definition mul : float → float → float := SFmul F64.prec F64.emax.
Definition div : float → float → float := SFdiv F64.prec F64.emax.
Definition sub : float → float → float := SFsub F64.prec F64.emax.
Definition sqrt : float → float := SFsqrt F64.prec F64.emax.
End Np.

Arguments F32.add : simpl never.
Arguments F32.sub : simpl never.
Arguments F32.mul : simpl never.
Arguments F32.div : simpl never.
Arguments F32.of_Z : simpl never.
Arguments F32.cast : simpl never.
Arguments F64.add : simpl never.
Arguments F64.sub : simpl never.
Arguments F64.mul : simpl never.
Arguments F64.div : simpl never.
Arguments F64.of_Z : simpl never.
Arguments F64.cast : simpl never.
Arguments Np.mul : simpl never.
Arguments Np.div : simpl never.
Arguments Np.sub : simpl never.
Arguments Np.sqrt : simpl never.

(** The comparison kernels, on float64 tensors: subnormal operands are read
    as zeros; a comparison with NaN is false. *)
Definition f_compare (x y : float) : option comparison :=
  SFcompare (flush F64.emax x) (flush F64.emax y).

(** [tf.less] *)
Definition f_lt (x y : float) : bool :=
  match f_compare x y with Some Lt => true | _ => false end.

(** [tf.greater] *)
Definition f_gt (x y : float) : bool :=
  match f_compare x y with Some Gt => true | _ => false end.

(** [tf.greater_equal] *)
Definition f_ge (x y : float) : bool :=
  match f_compare x y with Some Gt | Some Eq => true | _ => false end.

(** IEEE equality ([==]): [+0.0 == -0.0], and NaN equals nothing. *)
Definition f_eq (x y : float) : bool := SFeqb x y.

Definition is_nan (x : float) : bool :=
  match x with S754_nan => true | _ => false end.

(** neither an infinity nor NaN *)
Definition is_finite (x : float) : bool :=
  match x with S754_zero _ | S754_finite _ _ _ => true | _ => false end.

(** ** Tensors *)

(** A last axis [(x1, y1, x2, y2)]: [t[..., 0]] is [x1], ..., [t[..., 3]]
    is [y2]. *)
Record Box := mkBox { x1 : float; y1 : float; x2 : float; y2 : float }.

Definition box_map (f : float → float) (b : Box) : Box :=
  mkBox (f (x1 b)) (f (y1 b)) (f (x2 b)) (f (y2 b)).

(** element-wise [+] of two last axes of size 4, in float64 *)
Definition box_add (a s : Box) : Box :=
  mkBox (F64.add (x1 a) (x1 s)) (F64.add (y1 a) (y1 s))
        (F64.add (x2 a) (x2 s)) (F64.add (y2 a) (y2 s)).

(** Entry [[b, n]] of a tensor with two leading axes. *)
Definition at2 {A} (t : list (list A)) (b n : nat) : option A :=
  t !! b ≫= (.!! n).

(** An element-wise operation on two vectors of one shape. *)
Definition zip_with_same {A B C} (f : A → B → C)
    (l : list A) (k : list B) : option (list C) :=
  if decide (length l = length k) then Some (zip_with f l k) else None.

(** An element-wise operation on a [[B, N]] tensor and a [[N]] tensor, which
    is broadcast along the batch axis. *)
Definition bcast_rows {A B C} (f : A → B → C)
    (t : list (list A)) (v : list B) : option (list (list C)) :=
  mapM (λ row, zip_with_same f row v) t.

(** An element-wise operation on two [[B, N]] tensors of one shape. *)
Definition zip2_same {A B C} (f : A → B → C)
    (t : list (list A)) (u : list (list B)) : option (list (list C)) :=
  if decide (length t = length u)
  then mapM (λ p, zip_with_same f p.1 p.2) (zip t u)
  else None.

(** The same on tensors whose shapes agree by construction. *)
Definition zip2 {A B C} (f : A → B → C)
    (t : list (list A)) (u : list (list B)) : list (list C) :=
  zip_with (zip_with f) t u.

Definition map2 {A B} (f : A → B) (t : list (list A)) : list (list B) :=
  map (map f) t.

(** ** [bbox_transform] *)

(** [mean = tf.constant([0., 0., 0., 0.])] *)
Definition mean : list float := replicate 4 (S754_zero false).

(** [std = np.array([0.2, 0.2, 0.2, 0.2])]: the float64 nearest to 1/5. *)
Definition std : list float :=
  replicate 4 (F64.div (F64.of_Z 1) (F64.of_Z 5)).

(** [tf.stack([a, b, c, d], axis=-1)] of four [[B, N]] tensors of one
    shape. *)
Definition stack4 {A} (a b c d : list (list A)) : list (list (list A)) :=
  zip2 (λ p q, p ++ q)
       (zip2 (λ x y, [x; y]) a b) (zip2 (λ x y, [x; y]) c d).

Definition bbox_transform (anchors : list Box) (gt_boxes : list (list Box))
    : option (list (list (list float))) :=
  let anchors := map (box_map F32.cast) anchors in
  let gt_boxes := map2 (box_map F32.cast) gt_boxes in
  let anchor_widths := zip_with F32.sub (map x2 anchors) (map x1 anchors) in
  let anchor_heights := zip_with F32.sub (map y2 anchors) (map y1 anchors) in
  targets_dx1 ← bcast_rows F32.sub (map2 x1 gt_boxes) (map x1 anchors)
                ≫= λ d, bcast_rows F32.div d anchor_widths;
  targets_dy1 ← bcast_rows F32.sub (map2 y1 gt_boxes) (map y1 anchors)
                ≫= λ d, bcast_rows F32.div d anchor_heights;
  targets_dx2 ← bcast_rows F32.sub (map2 x2 gt_boxes) (map x2 anchors)
                ≫= λ d, bcast_rows F32.div d anchor_widths;
  targets_dy2 ← bcast_rows F32.sub (map2 y2 gt_boxes) (map y2 anchors)
                ≫= λ d, bcast_rows F32.div d anchor_heights;
  let targets := stack4 targets_dx1 targets_dy1 targets_dx2 targets_dy2 in
  (* the numpy array [std] is converted to the dtype of [targets] *)
  Some (map2 (λ t, zip_with F32.div (zip_with F32.sub t mean)
                            (map F32.cast std)) targets).

(** ** [AnchorGenerator] *)

Module AnchorGenerator.

Record t := mk {
  size : float;
  stride : Z;
  aspect_ratios : list float;
  anchor_scales : list float;
  anchors : list Box
}.

(** [[2 ** 0, 2 ** (1 / 3.0), 2 ** (2 / 3.0)]]: the float64 values
    1, 0x1.428a2f98d728bp+0 and 0x1.965fea53d6e3cp+0. *)
Definition default_anchor_scales : list float :=
  [ F64.of_Z 1;
    S754_finite false 5674179970822795 (-52);
    S754_finite false 7149018786131516 (-52) ].

Definition __len__ (self : t) : nat :=
  length (aspect_ratios self) * length (anchor_scales self).

(** [np.tile(v, (2, reps))] has two equal rows; this is one of them. *)
Definition np_tile {A} (v : list A) (reps : nat) : list A :=
  mjoin (replicate reps v).

(** [np.repeat(v, k)] *)
Definition np_repeat {A} (v : list A) (k : nat) : list A :=
  v ≫= replicate k.

Definition half : float := F64.div (F64.of_Z 1) (F64.of_Z 2).

(** [_generate] reads [self.size], [self.aspect_ratios] and
    [self.anchor_scales], which [__init__] has set before the call. *)
Definition _generate (size : float) (aspect_ratios anchor_scales : list float)
    : list Box :=
  let ratios := aspect_ratios in
  let scales := anchor_scales in
  (* anchors[:, 2:] = size * tile(scales, (2, len(ratios))).T *)
  let col2 := map (Np.mul size) (np_tile scales (length ratios)) in
  let col3 := col2 in
  let areas := zip_with Np.mul col2 col3 in
  let col2 := zip_with (λ a r, Np.sqrt (Np.div a r))
                       areas (np_repeat ratios (length scales)) in
  let col3 := zip_with Np.mul col2 (np_repeat ratios (length scales)) in
  (* columns 0 and 1 still hold the zeros of np.zeros *)
  let zero := S754_zero false in
  zip_with (λ w h, mkBox (Np.sub zero (Np.mul w half))
                         (Np.sub zero (Np.mul h half))
                         (Np.sub w (Np.mul w half))
                         (Np.sub h (Np.mul h half)))
           col2 col3.

Definition __init__ (size : float) (aspect_ratios : list float) (stride : Z)
    : t :=
  mk size stride aspect_ratios default_anchor_scales
     (_generate size aspect_ratios default_anchor_scales).

(** [tf.range(0, limit, dtype=tf.float32)] *)
Definition arange (limit : nat) : list float :=
  map (λ i, F32.of_Z (Z.of_nat i)) (seq 0 limit).

Definition half32 : float := F32.div (F32.of_Z 1) (F32.of_Z 2).


(** [h] and [w] are [feature_map_shape[0]] and [feature_map_shape[1]]. *)
Definition tile_anchors_over_feature_map (self : t) (h w : nat)
    : option (list Box) :=
  let shift_x := map (λ v, F32.mul (F32.add v half32) (F32.of_Z (stride self)))
                     (arange w) in
  let shift_y := map (λ v, F32.mul (F32.add v half32) (F32.of_Z (stride self)))
                     (arange h) in
  (* tf.meshgrid, then tf.reshape(_, [-1]) *)
  let shift_x := mjoin (replicate h shift_x) in
  let shift_y := mjoin (map (replicate w) shift_y) in
  (* tf.stack([...], axis=0), then tf.transpose *)
  let shifts := zip_with (λ sx sy, mkBox sx sy sx sy) shift_x shift_y in
  let A := __len__ self in
  (* tf.reshape(self.anchors, [1, A, 4]) *)
  if decide (length (anchors self) = A) then
    let all_anchors :=
      map (λ s, map (λ a, box_add a (box_map F64.cast s)) (anchors self))
          shifts in
    Some (mjoin all_anchors)
  else None.

End AnchorGenerator.

(** ** Gathering and reshaping *)

(** [tf.gather_nd(t, indices)] for a tensor with two leading axes and a list
    of [[b, j]] index pairs; an index out of range raises (the behaviour of
    the CPU kernel). *)
Definition gather_nd {A} (t : list (list A)) (indices : list (Z * Z))
    : option (list A) :=
  mapM (λ ix : Z * Z,
          if decide (0 ≤ ix.1 ∧ 0 ≤ ix.2)%Z
          then at2 t (Z.to_nat ix.1) (Z.to_nat ix.2)
          else None) indices.

(** [tf.reshape(flat, [batch_size, -1])] (with a trailing 4 when the
    elements are boxes): the number of elements must be a multiple of
    [batch_size]; for [batch_size = 0] an empty tensor is reshaped into an
    empty tensor. *)
Definition tf_reshape_rows {A} (batch_size : nat) (flat : list A)
    : option (list (list A)) :=
  if decide (batch_size = 0)
  then (if decide (flat = []) then Some [] else None)
  else if decide (length flat `mod` batch_size = 0)
  then Some (reshape (replicate batch_size (length flat `div` batch_size)) flat)
  else None.

(** [tf.where(cond, x, y)] on one element *)
Definition tf_where {A} (cond : bool) (x y : A) : A := if cond then x else y.

(** [tf.one_hot(i, depth=depth, off_value=0)], of dtype int32: a row of
    zeros when [i] is not in [[0, depth)]. *)
Definition one_hot (depth : nat) (i : Z) : list Z :=
  map (λ k, if decide (i = k) then 1%Z else 0%Z) (seqZ 0 (Z.of_nat depth)).

(** ** [compute_gt_annotations] *)

(** The lowest finite float64, [-(2 - 2^-52) * 2^1023]. *)
Definition lowest : float := S754_finite true 9007199254740991 971.

(** [tf.argmax(_, axis=-1)] on one row of float64; an empty reduction axis
    raises.  The kernel starts from index 0 and the lowest finite number,
    and moves to an entry when the entry compares greater than the running
    maximum: an equal entry and a NaN are passed over, whatever their
    position, so that the result is the lowest index of a maximal number,
    and 0 for a row of NaN. *)
Definition tf_argmax (row : list float) : option Z :=
  match row with
  | [] => None
  | _ :: _ =>
      Some (fst (foldl (λ (acc : Z * float) (iv : Z * float),
                          if f_gt iv.2 acc.2 then iv else acc)
                       (0%Z, lowest)
                       (zip (seqZ 0 (Z.of_nat (length row))) row)))
  end.

(** [tf.reduce_max(_, axis=-1)] on one row: NaN when an entry is NaN,
    otherwise the maximum, which is [-inf] for an empty row. *)
Definition tf_reduce_max (row : list float) : option float :=
  if existsb is_nan row then Some S754_nan
  else Some (foldl (λ m v, if f_gt v m then v else m)
                   (S754_infinity true) row).

Section Matcher.

(** The overlap of one box with another: a parameter of the matcher and of
    the encoder, since [bndbox.bbox_overlap] is not among the sources at
    hand. *)
Variable overlap : Box → Box → float.

(** Modelled from the spec: [bndbox.bbox_overlap], of which only the call is
    among the sources, computes the overlap of every anchor with every
    annotation of the same batch entry, a [[B, N, M]] tensor; no information
    crosses between batch entries. *)
Definition bbox_overlap (anchors annotations : list (list Box))
    : list (list (list float)) :=
  zip_with (λ an gts, map (λ a, map (overlap a) gts) an) anchors annotations.

Definition compute_gt_annotations (anchors : list Box)
    (annotations : list (list Box))
    (negative_overlap positive_overlap : float)
    : option (list (list bool) * list (list bool) * list (Z * Z)) :=
  let batch_size := length annotations in
  (* anchors.shape[1] of the tiled tensor below *)
  let n_anchors := length anchors in
  (* tf.expand_dims, tf.cast and tf.tile *)
  let anchors := replicate batch_size (map (box_map F64.cast) anchors) in
  let annotations := map2 (box_map F64.cast) annotations in
  let overlaps := bbox_overlap anchors annotations in
  argmax_overlaps_inds ← mapM (mapM tf_argmax) overlaps;
  max_overlaps ← mapM (mapM tf_reduce_max) overlaps;
  (* index pairs [batch_idx, max_overlap] *)
  let batched_indices :=
    map (λ b, replicate n_anchors b) (seqZ 0 (Z.of_nat batch_size)) in
  let batched_indices := mjoin batched_indices in
  let argmax_inds := mjoin argmax_overlaps_inds in
  let batched_indices := zip batched_indices argmax_inds in
  max_overlap_boxes ← gather_nd anchors batched_indices;
  max_overlap_boxes ← tf_reshape_rows batch_size max_overlap_boxes;
  (* areas of the gathered boxes *)
  let widths := map2 (λ b, F64.sub (x2 b) (x1 b)) max_overlap_boxes in
  let heights := map2 (λ b, F64.sub (y2 b) (y1 b)) max_overlap_boxes in
  let areas := zip2 F64.mul widths heights in
  let small_areas := map2 (λ a, f_lt a (F64.of_Z 1)) areas in
  let large_areas := map2 negb small_areas in
  let positive_indices := map2 (λ m, f_ge m positive_overlap) max_overlaps in
  let positive_indices := zip2 andb positive_indices large_areas in
  let ignore_indices := map2 (λ m, f_gt m negative_overlap) max_overlaps in
  let ignore_indices := zip2 andb ignore_indices (map2 negb positive_indices) in
  let ignore_indices := zip2 orb ignore_indices small_areas in
  Some (positive_indices, ignore_indices, batched_indices).

End Matcher.

(** ** [anchor_targets_bbox] *)

(** [images.shape]; the pixels are not read. *)
Record ImagesShape := mkShape {
  batch : nat; height : nat; width : nat; channels : nat
}.

Definition default_padding_value : Z := (-1)%Z.
(** [0.4] and [0.5] as Python floats *)
Definition default_negative_overlap : float := F64.div (F64.of_Z 2) (F64.of_Z 5).
Definition default_positive_overlap : float := F64.div (F64.of_Z 1) (F64.of_Z 2).

Section Encoder.

Variable overlap : Box → Box → float.

(** The masks after the block "Add padded instances to ignore indices",
    with the gathered labels and the index pairs. *)
Definition padding_demotion (anchors : list Box) (images : ImagesShape)
    (bndboxes : list (list Box)) (labels : list (list Z))
    (padding_value : Z) (negative_overlap positive_overlap : float)
    : option (list (list bool) * list (list bool)
              * list (list Z) * list (Z * Z)) :=
  let batch_size := batch images in
  result ← compute_gt_annotations overlap anchors bndboxes
                                  negative_overlap positive_overlap;
  let '(positive_indices, ignore_indices, argmax_overlaps_inds) := result in
  chose_labels ← gather_nd labels argmax_overlaps_inds;
  chose_labels ← tf_reshape_rows batch_size chose_labels;
  let no_padding_mask :=
    map2 (λ l, negb (bool_decide (l = padding_value))) chose_labels in
  positive_indices ← zip2_same andb positive_indices no_padding_mask;
  ignore_indices ← zip2_same orb ignore_indices (map2 negb no_padding_mask);
  Some (positive_indices, ignore_indices, chose_labels, argmax_overlaps_inds).

(** [out_mask] of the block "Expand ignore indices with out of image
    anchors". *)
Definition out_mask (anchors : list Box) (images : ImagesShape) : list bool :=
  let two := F64.of_Z 2 in
  let x_anchor_centre :=
    map (λ c, F64.div c two) (zip_with F64.add (map x1 anchors) (map x2 anchors)) in
  let y_anchor_centre :=
    map (λ c, F64.div c two) (zip_with F64.add (map y1 anchors) (map y2 anchors)) in
  let out_x := map (λ c, f_ge c (F64.of_Z (Z.of_nat (width images))))
                   x_anchor_centre in
  let out_y := map (λ c, f_ge c (F64.of_Z (Z.of_nat (height images))))
                   y_anchor_centre in
  zip_with orb out_x out_y.

(** The masks after that block. *)
Definition out_of_image_masking (anchors : list Box) (images : ImagesShape)
    (bndboxes : list (list Box)) (labels : list (list Z))
    (padding_value : Z) (negative_overlap positive_overlap : float)
    : option (list (list bool) * list (list bool)
              * list (list Z) * list (Z * Z)) :=
  st ← padding_demotion anchors images bndboxes labels padding_value
                        negative_overlap positive_overlap;
  let '(positive_indices, ignore_indices, chose_labels, inds) := st in
  ignore_indices ← bcast_rows orb ignore_indices (out_mask anchors images);
  Some (positive_indices, ignore_indices, chose_labels, inds).

(** Returns [(regression_per_anchor, labels_per_anchor)]. *)
Definition anchor_targets_bbox (anchors : list Box) (images : ImagesShape)
    (bndboxes : list (list Box)) (labels : list (list Z))
    (num_classes : nat)
    (padding_value : Z) (negative_overlap positive_overlap : float)
    : option (list (list (list float)) * list (list (list float))) :=
  let batch_size := batch images in
  st ← out_of_image_masking anchors images bndboxes labels padding_value
                            negative_overlap positive_overlap;
  let '(positive_indices, ignore_indices, chose_labels,
        argmax_overlaps_inds) := st in
  (* labels per anchor *)
  let labels_per_anchor :=
    zip2 (λ p l, tf_where p l 0%Z) positive_indices chose_labels in
  let labels_per_anchor :=
    zip2 (λ i l, tf_where i (-1)%Z l) ignore_indices labels_per_anchor in
  let labels_per_anchor := map2 (one_hot num_classes) labels_per_anchor in
  let labels_per_anchor := map2 (map F32.of_Z) labels_per_anchor in
  (* regression for each anchor; the tf.zeros assigned first is overwritten
     at once *)
  chose_bndboxes ← gather_nd bndboxes argmax_overlaps_inds;
  chose_bndboxes ← tf_reshape_rows batch_size chose_bndboxes;
  regression_per_anchor ← bbox_transform anchors chose_bndboxes;
  (* the state of each anchor *)
  let indices :=
    map2 (λ p : bool, if p then F32.of_Z 1 else F32.of_Z 0) positive_indices in
  let indices :=
    zip2 (λ i s, tf_where i (F32.of_Z (-1)) s) ignore_indices indices in
  let indices := map2 (λ s, [s]) indices in
  let labels_per_anchor := zip2 app labels_per_anchor indices in
  let regression_per_anchor := zip2 app regression_per_anchor indices in
  Some (regression_per_anchor, labels_per_anchor).

End Encoder.

(** ** The overlap of two boxes *)

Definition f_max (x y : float) : float := if f_gt y x then y else x.
Definition f_min (x y : float) : float := if f_lt y x then y else x.

Definition area (a : Box) : float :=
  F64.mul (F64.sub (x2 a) (x1 a)) (F64.sub (y2 a) (y1 a)).

(** Modelled from the spec: the overlap that [bndbox.bbox_overlap], of which
    only the call is among the sources, computes for one pair of boxes.  The
    intersection is
    [max(0, min(a.x2, b.x2) − max(a.x1, b.x1)) · max(0, min(a.y2, b.y2) − max(a.y1, b.y1))],
    the union is [area(a) + area(b) − intersection], and the overlap is
    [intersection / union], or 0 when the union is 0. *)
Definition iou (a b : Box) : float :=
  let zero := S754_zero false in
  let iw := f_max zero (F64.sub (f_min (x2 a) (x2 b)) (f_max (x1 a) (x1 b))) in
  let ih := f_max zero (F64.sub (f_min (y2 a) (y2 b)) (f_max (y1 a) (y1 b))) in
  let intersection := F64.mul iw ih in
  let union := F64.sub (F64.add (area a) (area b)) intersection in
  if f_eq union zero then zero else F64.div intersection union.


(** ** Notions used in the statements *)

(** A tensor with [B] rows of [N] entries. *)
Definition shape2 {A} (B N : nat) (t : list (list A)) : Prop :=
  length t = B ∧ Forall (λ r, length r = N) t.

(** The index pairs [[b, j]] as [compute_gt_annotations] builds them from the
    [[B, N]] tensor of arg-max indices. *)
Definition index_pairs (N B : nat) (argmax_inds : list (list Z)) : list (Z * Z) :=
  zip (mjoin (map (λ b, replicate N b) (seqZ 0 (Z.of_nat B))))
      (mjoin argmax_inds).

(** The overlaps of one anchor with the annotations of one batch entry, both
    cast to float64. *)
Definition overlap_row (overlap : Box → Box → float)
    (a : Box) (gts : list Box) : list float :=
  map (overlap (box_map F64.cast a)) (map (box_map F64.cast) gts).

(** The test "area < 1" on the box that [compute_gt_annotations] gathers. *)
Definition small_area (gb : Box) : bool := f_lt (area gb) (F64.of_Z 1).

(** The state scalar of an anchor from its two final masks. *)
Definition anchor_state (p i : bool) : float :=
  tf_where i (F32.of_Z (-1)) (if p then F32.of_Z 1 else F32.of_Z 0).

(** The class index that [tf.one_hot] receives for an anchor. *)
Definition class_index (p i : bool) (l : Z) : Z :=
  tf_where i (-1)%Z (tf_where p l 0%Z).

(** Both outputs carry the state scalar [s] in the trailing column of
    anchor [n] of batch entry [b]. *)
Definition has_state (R L : list (list (list float))) (b n : nat)
    (s : float) : Prop :=
  ∃ reg cls, length reg = 4 ∧
    at2 R b n = Some (reg ++ [s]) ∧ at2 L b n = Some (cls ++ [s]).

(** ** Concrete values *)

(** The float32 [num / den]. *)
Definition f32 (num den : Z) : float := F32.div (F32.of_Z num) (F32.of_Z den).

(** The float64 [2 ^ e]. *)
Definition pow2 (e : Z) : float := F64.cast (S754_finite false 1 e).

(** A box with integer corners, as float64. *)
Definition bx (a b c d : Z) : Box :=
  mkBox (F64.of_Z a) (F64.of_Z b) (F64.of_Z c) (F64.of_Z d).

(** A box whose corners are given in halves, as float64. *)
Definition bxh (a b c d : Z) : Box :=
  let two := F64.of_Z 2 in
  mkBox (F64.div (F64.of_Z a) two) (F64.div (F64.of_Z b) two)
        (F64.div (F64.of_Z c) two) (F64.div (F64.of_Z d) two).

(** ** [AnchorGenerator.__call__] and its caller in [test/voc_ds_test.py] *)

(** [__call__] passes its arguments on to [tile_anchors_over_feature_map]. *)
Definition AnchorGenerator__call__ (self : AnchorGenerator.t) (h w : nat)
    : option (list Box) :=
  AnchorGenerator.tile_anchors_over_feature_map self h w.

Module config.

(** The three fields of [config.AnchorsConfig] that [generate_anchors] reads;
    the class itself is not among the sources at hand. *)
Record AnchorsConfig := mkAnchorsConfig {
  sizes : list float;
  strides : list Z;
  ratios : list float
}.

End config.

(** [VOCDatasetTest.generate_anchors]: one generator per pyramid level 3..7,
    each tiled over a square feature map of side
    [im_shape // 2 ** (level - 2)], the results concatenated.  An index past
    the end of [sizes] or [strides] raises. *)
Definition generate_anchors (anchors_config : config.AnchorsConfig)
    (im_shape : nat) : option (list Box) :=
  anchors_gen ←
    mapM (λ i, size ← config.sizes anchors_config !! (i - 3);
               stride ← config.strides anchors_config !! (i - 3);
               Some (AnchorGenerator.__init__
                       size (config.ratios anchors_config) stride))
         (seq 3 5);
  let shapes := map (λ x, im_shape `div` (2 ^ (x - 2))) (seq 3 5) in
  anchors ← mapM (λ gs : AnchorGenerator.t * nat,
                    AnchorGenerator__call__ gs.1 gs.2 gs.2)
                 (zip anchors_gen shapes);
  Some (mjoin anchors).

(** ** One anchor of [anchor_targets_bbox] *)

(** The regression target of one anchor against one box: the entry of
    [bbox_transform]. *)
Definition regression_target (a g : Box) : list float :=
  let a' := box_map F32.cast a in
  let g' := box_map F32.cast g in
  let w := F32.sub (x2 a') (x1 a') in
  let h := F32.sub (y2 a') (y1 a') in
  let zero := S754_zero false in
  let std32 := F32.cast (F64.div (F64.of_Z 1) (F64.of_Z 5)) in
  [ F32.div (F32.sub (F32.div (F32.sub (x1 g') (x1 a')) w) zero) std32;
    F32.div (F32.sub (F32.div (F32.sub (y1 g') (y1 a')) h) zero) std32;
    F32.div (F32.sub (F32.div (F32.sub (x2 g') (x2 a')) w) zero) std32;
    F32.div (F32.sub (F32.div (F32.sub (y2 g') (y2 a')) h) zero) std32 ].

(** The out-of-image test of one anchor: the entry of [out_mask]. *)
Definition out_of_image (images : ImagesShape) (a : Box) : bool :=
  f_ge (F64.div (F64.add (x1 a) (x2 a)) (F64.of_Z 2))
       (F64.of_Z (Z.of_nat (width images)))
  || f_ge (F64.div (F64.add (y1 a) (y2 a)) (F64.of_Z 2))
          (F64.of_Z (Z.of_nat (height images))).

(** The two output rows of one anchor, computed from the anchor, the list of
    anchors, and the boxes and labels of one image: what
    [anchor_targets_bbox] does, read anchor by anchor. *)
Definition anchor_entry (overlap : Box → Box → float) (anchors : list Box)
    (images : ImagesShape) (gts : list Box) (ls : list Z) (num_classes : nat)
    (padding_value : Z) (negative_overlap positive_overlap : float) (a : Box)
    : option (list float * list float) :=
  j ← tf_argmax (overlap_row overlap a gts);
  m ← tf_reduce_max (overlap_row overlap a gts);
  gb ← anchors !! Z.to_nat j;
  g ← gts !! Z.to_nat j;
  l ← ls !! Z.to_nat j;
  let small := small_area (box_map F64.cast gb) in
  let p0 := f_ge m positive_overlap && negb small in
  let i0 := f_gt m negative_overlap && negb p0 || small in
  let no_padding := negb (bool_decide (l = padding_value)) in
  let p := p0 && no_padding in
  let i := i0 || negb no_padding || out_of_image images a in
  Some (regression_target a g ++ [anchor_state p i],
        map F32.of_Z (one_hot num_classes (class_index p i l))
        ++ [anchor_state p i]).

(** ** The order of the comparisons *)

(** The place of a number in the order of [SFcompare]: class (−2 for −∞,
    −1 for negative, 0 for a zero, 1 for positive, 2 for +∞), then exponent,
    then mantissa, the latter two negated for negative numbers; NaN has no
    place. *)
Definition sf_key (x : float) : option (Z * Z * Z) :=
  match x with
  | S754_zero _ => Some (0, 0, 0)%Z
  | S754_infinity s => Some (if s then (-2)%Z else 2%Z, 0%Z, 0%Z)
  | S754_nan => None
  | S754_finite false m e => Some (1%Z, e, Z.pos m)
  | S754_finite true m e => Some ((-1)%Z, (- e)%Z, Z.neg m)
  end.

(** The place of a number in the order of the comparison kernels, which
    read a subnormal number as zero. *)
Definition f_key (x : float) : option (Z * Z * Z) :=
  sf_key (flush F64.emax x).

(** The lexicographic order of the keys. *)
Definition key_lt (a b : Z * Z * Z) : Prop :=
  (a.1.1 < b.1.1 ∨
   (a.1.1 = b.1.1 ∧ (a.1.2 < b.1.2 ∨ (a.1.2 = b.1.2 ∧ a.2 < b.2))))%Z.

(** The state of the kernel of [tf_argmax] after the part [pre] of a row of
    numbers: either nothing seen is above the lowest finite number and the
    kernel is still at its start, or the kernel is at the first of the
    greatest entries seen. *)
Definition argmax_state (pre : list float) (acc : Z * float) : Prop :=
  (acc = (0%Z, lowest) ∧ ∀ v, v ∈ pre → f_gt v lowest = false) ∨
  ((0 ≤ acc.1)%Z ∧ pre !! Z.to_nat acc.1 = Some acc.2 ∧
   (∀ k v, pre !! k = Some v → f_gt v acc.2 = false) ∧
   (∀ k v, k < Z.to_nat acc.1 → pre !! k = Some v → f_gt acc.2 v = true)).

(** ** Further concrete values *)

(** Two anchors far apart. *)
Definition two_anchors : list Box := [bx 0 0 10 10; bx 20 20 30 30].

(** The boxes of an image: the two anchors, in the opposite order. *)
Definition two_boxes : list Box := [bx 20 20 30 30; bx 0 0 10 10].

(** Sizes and strides for the five pyramid levels, and three aspect
    ratios. *)
Definition five_levels : config.AnchorsConfig :=
  config.mkAnchorsConfig
    (map F64.of_Z [32; 64; 128; 256; 512]%Z)
    [8; 16; 32; 64; 128]%Z
    [F64.of_Z 1; F64.of_Z 2; F64.div (F64.of_Z 1) (F64.of_Z 2)].

(** The same with the last size missing. *)
Definition four_sizes : config.AnchorsConfig :=
  config.mkAnchorsConfig
    (map F64.of_Z [32; 64; 128; 256]%Z)
    [8; 16; 32; 64; 128]%Z
    [F64.of_Z 1; F64.of_Z 2; F64.div (F64.of_Z 1) (F64.of_Z 2)].

(** * Properties *)

(** ** Entries of element-wise operations *)

Section TensorLemmas.
Context {A B C : Type}.
Implicit Types (f : A → B → C) (g : A → B).

Lemma at2_map2 g (t : list (list A)) b n :
  at2 (map2 g t) b n = g <$> at2 t b n.
Proof.
  unfold at2, map2. rewrite list_lookup_fmap.
  destruct (t !! b) as [row|]; simpl; [|done].
  by rewrite list_lookup_fmap.
Qed.

Lemma at2_zip2 f (t : list (list A)) (u : list (list B)) b n :
  at2 (zip2 f t u) b n = x ← at2 t b n; y ← at2 u b n; Some (f x y).
Proof.
  unfold at2, zip2. rewrite lookup_zip_with.
  destruct (t !! b) as [r|]; simpl; [|done].
  destruct (u !! b) as [s|]; simpl.
  - by rewrite lookup_zip_with.
  - by destruct (r !! n).
Qed.

Lemma zip_with_same_Some f (l : list A) (k : list B) r :
  zip_with_same f l k = Some r → length l = length k ∧ r = zip_with f l k.
Proof. unfold zip_with_same. case_decide; naive_solver. Qed.

Lemma bcast_rows_Some f (t : list (list A)) (v : list B) r :
  bcast_rows f t v = Some r →
  Forall (λ row, length row = length v) t ∧
  r = map (λ row, zip_with f row v) t.
Proof.
  unfold bcast_rows. intros Hr%mapM_Some.
  induction Hr as [|row out t r [Hlen ->]%zip_with_same_Some _ [IH1 ->]];
    [done|].
  by split; [constructor|].
Qed.

Lemma at2_bcast_rows f (t : list (list A)) (v : list B) r b n :
  bcast_rows f t v = Some r →
  at2 r b n = x ← at2 t b n; y ← v !! n; Some (f x y).
Proof.
  intros [_ ->]%bcast_rows_Some. unfold at2.
  rewrite list_lookup_fmap. destruct (t !! b) as [row|]; simpl; [|done].
  by rewrite lookup_zip_with.
Qed.

Lemma zip2_same_Some f (t : list (list A)) (u : list (list B)) r :
  zip2_same f t u = Some r →
  Forall2 (λ p q, length p = length q) t u ∧ r = zip2 f t u.
Proof.
  unfold zip2_same, zip2. case_decide as Hlen; [|done].
  intros Hr%mapM_Some. revert u r Hlen Hr.
  induction t as [|p t IH]; intros [|q u] r Hlen Hr; simplify_eq/=.
  - by inversion Hr.
  - inversion Hr as [|? out ? r' [? ->]%zip_with_same_Some Hr']; subst.
    destruct (IH u r' Hlen Hr') as [? ->]. by split; [constructor|].
Qed.
End TensorLemmas.

Lemma mapM2_Some {A B} (f : A → option B) (t : list (list A)) r :
  mapM (mapM f) t = Some r →
  Forall2 (λ p q, length p = length q) t r ∧
  ∀ b n, at2 r b n = at2 t b n ≫= f.
Proof.
  intros Hr%mapM_Some. split.
  - induction Hr as [|p q t r Hq%length_mapM _ IH]; by constructor.
  - intros b n. unfold at2.
    destruct (t !! b) as [p|] eqn:Hp; simpl.
    + destruct (Forall2_lookup_l _ _ _ _ _ Hr Hp) as (q & -> & Hq); simpl.
      apply mapM_Some in Hq.
      destruct (p !! n) as [x|] eqn:Hx; simpl.
      * by destruct (Forall2_lookup_l _ _ _ _ _ Hq Hx) as (y & -> & ->).
      * apply Forall2_length in Hq.
        apply lookup_ge_None. apply lookup_ge_None in Hx. lia.
    + apply Forall2_length in Hr.
      rewrite (proj2 (lookup_ge_None r b)); [done|].
      apply lookup_ge_None in Hp. lia.
Qed.

(** ** [bbox_transform], entry by entry *)

(** The regression target of one anchor and one ground-truth box, written
    out: both are cast to float32 first. *)
Lemma bbox_transform_at2 anchors gt_boxes T b n a g :
  bbox_transform anchors gt_boxes = Some T →
  anchors !! n = Some a →
  at2 gt_boxes b n = Some g →
  let a' := box_map F32.cast a in
  let g' := box_map F32.cast g in
  let w := F32.sub (x2 a') (x1 a') in
  let h := F32.sub (y2 a') (y1 a') in
  let zero := S754_zero false in
  let std32 := F32.cast (F64.div (F64.of_Z 1) (F64.of_Z 5)) in
  at2 T b n = Some
    [ F32.div (F32.sub (F32.div (F32.sub (x1 g') (x1 a')) w) zero) std32;
      F32.div (F32.sub (F32.div (F32.sub (y1 g') (y1 a')) h) zero) std32;
      F32.div (F32.sub (F32.div (F32.sub (x2 g') (x2 a')) w) zero) std32;
      F32.div (F32.sub (F32.div (F32.sub (y2 g') (y2 a')) h) zero) std32 ].
Proof.
  intros HT Ha Hg. unfold bbox_transform in HT.
  repeat match type of HT with
  | (_ ≫= _) = Some _ =>
      let H := fresh "H" in
      apply bind_Some in HT as (? & H & HT);
      try (let H' := fresh "H" in apply bind_Some in H as (? & H' & H))
  end.
  simplify_eq. unfold stack4.
  rewrite at2_map2, !at2_zip2.
  repeat match goal with
  | H : bcast_rows _ _ _ = Some ?r |- context [at2 ?r _ _] =>
      rewrite (at2_bcast_rows _ _ _ _ b n H)
  end.
  rewrite !at2_map2, Hg, !lookup_zip_with, !list_lookup_fmap, Ha.
  reflexivity.
Qed.

Lemma bcast_rows_complete {A B C} (f : A → B → C) (t : list (list A)) v :
  Forall (λ row, length row = length v) t →
  bcast_rows f t v = Some (map (λ row, zip_with f row v) t).
Proof.
  intros Hshape. apply mapM_Some, Forall2_fmap_r, Forall_Forall2_diag.
  eapply Forall_impl; [|exact Hshape]. intros row Hrow. simpl.
  unfold zip_with_same. by rewrite decide_True by done.
Qed.

(** [bbox_transform] raises exactly when a row of [gt_boxes] and [anchors]
    differ in length; it has no other failure. *)
Lemma bbox_transform_is_Some anchors gt_boxes :
  Forall (λ row, length row = length anchors) gt_boxes ↔
  is_Some (bbox_transform anchors gt_boxes).
Proof.
  split.
  - intros Hshape. unfold bbox_transform.
    assert (∀ (p : Box → float) (v : list float) (op : float → float → float),
      length v = length anchors →
      bcast_rows op (map2 p (map2 (box_map F32.cast) gt_boxes)) v
      = Some (map (λ row, zip_with op row v)
                  (map2 p (map2 (box_map F32.cast) gt_boxes)))) as Hsub.
    { intros p v op Hv. apply bcast_rows_complete. unfold map2.
      rewrite !Forall_fmap. eapply Forall_impl; [|exact Hshape].
      intros row Hrow. simpl. rewrite !length_fmap. congruence. }
    assert (∀ (p : Box → float) (u v : list float) (op op' : float → float → float),
      length u = length anchors → length v = length anchors →
      bcast_rows op' (map (λ row, zip_with op row u)
                          (map2 p (map2 (box_map F32.cast) gt_boxes))) v
      = Some (map (λ row, zip_with op' row v)
                  (map (λ row, zip_with op row u)
                       (map2 p (map2 (box_map F32.cast) gt_boxes))))) as Hdiv.
    { intros p u v op op' Hu Hv. apply bcast_rows_complete. unfold map2.
      rewrite !Forall_fmap. eapply Forall_impl; [|exact Hshape].
      intros row Hrow. simpl. rewrite length_zip_with, !length_fmap.
      rewrite Hrow, Hu, Hv. lia. }
    rewrite !Hsub by (by rewrite !length_fmap). simpl.
    rewrite !Hdiv by (rewrite ?length_zip_with, !length_fmap; lia). done.
  - intros [T HT]. unfold bbox_transform in HT.
    apply bind_Some in HT as (? & H & _).
    apply bind_Some in H as (? & [H _]%bcast_rows_Some & _).
    unfold map2 in H. rewrite !Forall_fmap in H.
    eapply Forall_impl; [|exact H]. intros row. simpl.
    by rewrite !length_fmap.
Qed.

(** ** Rounding never produces NaN *)

Section Rounding.
Variables prec emax : Z.

Lemma shr_1_nonneg mrs : (0 ≤ shr_m mrs)%Z → (0 ≤ shr_m (shr_1 mrs))%Z.
Proof. destruct mrs as [[|[p|p|]|p] r s]; simpl; lia. Qed.

Lemma iter_pos_shr_1_nonneg p mrs :
  (0 ≤ shr_m mrs)%Z → (0 ≤ shr_m (SpecFloat.iter_pos shr_1 p mrs))%Z.
Proof.
  revert mrs. induction p as [p IH|p IH|]; intros mrs Hm; simpl;
    auto using shr_1_nonneg.
Qed.

Lemma shr_fexp_nonneg m e l :
  (0 ≤ m)%Z → (0 ≤ shr_m (shr_fexp prec emax m e l).1)%Z.
Proof.
  intros Hm. unfold shr_fexp, shr.
  assert (0 ≤ shr_m (shr_record_of_loc m l))%Z
    by (by destruct l as [|[]]).
  destruct (_ - e)%Z; simpl; auto using iter_pos_shr_1_nonneg.
Qed.

Lemma round_nearest_even_nonneg m l :
  (0 ≤ m)%Z → (0 ≤ round_nearest_even m l)%Z.
Proof.
  intros Hm. destruct l as [|[]]; simpl; try lia.
  destruct (Z.even m); lia.
Qed.

Lemma binary_round_aux_not_nan s m e l :
  (0 ≤ m)%Z → is_nan (binary_round_aux prec emax s m e l) = false.
Proof.
  intros Hm. unfold binary_round_aux.
  pose proof (shr_fexp_nonneg m e l Hm) as H1.
  destruct (shr_fexp prec emax m e l) as [mrs' e']. simpl in H1.
  pose proof (shr_fexp_nonneg
                (round_nearest_even (shr_m mrs') (loc_of_shr_record mrs'))
                e' loc_Exact (round_nearest_even_nonneg _ _ H1)) as H2.
  destruct (shr_fexp prec emax _ e' loc_Exact) as [mrs'' e'']. simpl in H2.
  destruct (shr_m mrs''); [done| |lia].
  by destruct (_ <=? _)%Z.
Qed.

Lemma binary_round_not_nan s m e :
  is_nan (binary_round prec emax s m e) = false.
Proof.
  unfold binary_round. destruct (shl_align _ _ _).
  by apply binary_round_aux_not_nan.
Qed.

Lemma binary_normalize_not_nan m e s :
  is_nan (binary_normalize prec emax m e s) = false.
Proof. destruct m; simpl; auto using binary_round_not_nan. Qed.

(** The difference of two finite numbers is a number, possibly an
    infinity by overflow. *)
Lemma SFsub_not_nan x y :
  is_finite x = true → is_finite y = true →
  is_nan (SFsub prec emax x y) = false.
Proof.
  destruct x as [[]| | |], y as [[]| | |]; simpl; try done;
    intros _ _; apply binary_normalize_not_nan.
Qed.

(** A number divided by a finite number other than zero is a number. *)
Lemma SFdiv_not_nan x y :
  is_nan x = false → is_finite y = true → f_eq y (S754_zero false) = false →
  is_nan (SFdiv prec emax x y) = false.
Proof.
  destruct x as [sx|sx| |sx mx ex], y as [sy|sy| |sy my ey];
    simpl; try done.
  intros _ _ _. unfold SFdiv_core_binary.
  set (m' := match (ex - ey - _)%Z with
             | 0%Z => Z.pos mx | Z.pos _ => Z.shiftl (Z.pos mx) _
             | Z.neg _ => 0%Z end).
  assert (0 ≤ m')%Z as Hm'.
  { subst m'. destruct (ex - ey - _)%Z; try lia.
    by apply Z.shiftl_nonneg. }
  pose proof (Z.div_pos m' (Z.pos my) Hm' eq_refl) as Hq.
  unfold Z.div in Hq. destruct (Z.div_eucl m' (Z.pos my)) as [q r].
  by apply binary_round_aux_not_nan.
Qed.

(** Dividing by a zero gives an infinity or NaN. *)
Lemma SFdiv_zero_not_finite x s :
  is_finite (SFdiv prec emax x (S754_zero s)) = false.
Proof. by destruct x. Qed.

Lemma SFsub_zero_r x :
  is_nan x = false → is_nan (SFsub prec emax x (S754_zero false)) = false.
Proof. by destruct x as [[]| | |]. Qed.

Lemma SFsub_zero_r_not_finite x :
  is_finite x = false →
  is_finite (SFsub prec emax x (S754_zero false)) = false.
Proof. by destruct x as [[]| | |]. Qed.

Lemma SFdiv_not_finite x y :
  is_finite x = false → is_finite y = true →
  is_finite (SFdiv prec emax x y) = false.
Proof. by destruct x, y. Qed.
End Rounding.

(** ** What the kernels read and write *)

Lemma flush_is_nan emax x : is_nan (flush emax x) = is_nan x.
Proof. unfold flush. by destruct x as [| | |s m e]; simpl; try case_match. Qed.

Lemma flush_is_finite emax x : is_finite (flush emax x) = is_finite x.
Proof. unfold flush. by destruct x as [| | |s m e]; simpl; try case_match. Qed.

Lemma flush_not_finite emax x : is_finite x = false → flush emax x = x.
Proof. by destruct x. Qed.

Lemma flush_zero emax s : flush emax (S754_zero s) = S754_zero s.
Proof. done. Qed.

Lemma flush_id emax x : is_subnormal emax x = false → flush emax x = x.
Proof. unfold flush. by intros ->. Qed.

Lemma tf_round_is_nan emax r : is_nan (tf_round emax r) = is_nan r.
Proof.
  unfold tf_round. destruct r as [| | |s m e]; simpl; try done.
  by repeat case_match.
Qed.

Lemma tf_round_not_finite emax r : is_finite r = false → tf_round emax r = r.
Proof. by destruct r. Qed.

(** A kernel never writes a subnormal number. *)
Lemma tf_round_not_subnormal emax r : is_subnormal emax (tf_round emax r) = false.
Proof.
  unfold tf_round. destruct (is_subnormal emax r) eqn:Hr; [done|].
  by destruct (overflows emax r).
Qed.

Lemma tf_op_not_subnormal prec emax op x y :
  is_subnormal emax (tf_op prec emax op x y) = false.
Proof. apply tf_round_not_subnormal. Qed.

(** The difference of two finite numbers is a number. *)
Lemma tf_sub_not_nan prec emax x y :
  is_finite x = true → is_finite y = true →
  is_nan (tf_op prec emax SFsub x y) = false.
Proof.
  intros Hx Hy. unfold tf_op. rewrite tf_round_is_nan.
  apply SFsub_not_nan; by rewrite flush_is_finite.
Qed.

(** A number divided by a finite number that a kernel does not read as
    zero is a number. *)
Lemma tf_div_not_nan prec emax x y :
  is_nan x = false → is_finite y = true →
  f_eq (flush emax y) (S754_zero false) = false →
  is_nan (tf_op prec emax SFdiv x y) = false.
Proof.
  intros Hx Hy Hy0. unfold tf_op. rewrite tf_round_is_nan.
  apply SFdiv_not_nan; by rewrite ?flush_is_nan, ?flush_is_finite.
Qed.

(** Dividing by a zero gives an infinity or NaN. *)
Lemma tf_div_zero_not_finite prec emax x s :
  is_finite (tf_op prec emax SFdiv x (S754_zero s)) = false.
Proof.
  unfold tf_op. rewrite flush_zero.
  pose proof (SFdiv_zero_not_finite prec (unbounded emax) (flush emax x) s) as H.
  by rewrite (tf_round_not_finite _ _ H).
Qed.

Lemma tf_sub_zero_r prec emax x :
  is_nan x = false →
  is_nan (tf_op prec emax SFsub x (S754_zero false)) = false.
Proof.
  intros Hx. unfold tf_op. rewrite tf_round_is_nan, flush_zero.
  apply SFsub_zero_r. by rewrite flush_is_nan.
Qed.

Lemma tf_sub_zero_r_not_finite prec emax x :
  is_finite x = false →
  is_finite (tf_op prec emax SFsub x (S754_zero false)) = false.
Proof.
  intros Hx. unfold tf_op. rewrite flush_zero, (flush_not_finite _ _ Hx).
  pose proof (SFsub_zero_r_not_finite prec (unbounded emax) x Hx) as H.
  by rewrite (tf_round_not_finite _ _ H).
Qed.

Lemma tf_div_not_finite prec emax x y :
  is_finite x = false → is_finite y = true →
  is_finite (tf_op prec emax SFdiv x y) = false.
Proof.
  intros Hx Hy. unfold tf_op. rewrite (flush_not_finite _ _ Hx).
  pose proof (SFdiv_not_finite prec (unbounded emax) x (flush emax y) Hx) as H.
  rewrite flush_is_finite in H. specialize (H Hy).
  by rewrite (tf_round_not_finite _ _ H).
Qed.

(** Numbers that are equal compare equal when read by a kernel. *)
Lemma SFcompare_refl x : is_nan x = false → SFcompare x x = Some Eq.
Proof.
  destruct x as [s|s| |s m e]; try done; intros _; simpl.
  - by destruct s.
  - destruct s; rewrite Z.compare_refl, Pos.compare_cont_refl; done.
Qed.

Lemma SFcompare_Eq_finite s1 m1 e1 s2 m2 e2 :
  SFcompare (S754_finite s1 m1 e1) (S754_finite s2 m2 e2) = Some Eq →
  s1 = s2 ∧ m1 = m2 ∧ e1 = e2.
Proof.
  simpl. destruct s1, s2; try done;
    destruct (Z.compare_spec e1 e2); try done; subst;
    change (Pos.compare_cont Eq m1 m2) with (m1 ?= m2)%positive;
    destruct (Pos.compare_spec m1 m2); try done; by subst.
Qed.

Lemma f_compare_eq x y : f_eq x y = true → f_compare x y = Some Eq.
Proof.
  unfold f_eq, SFeqb, f_compare. intros Heq.
  destruct (SFcompare x y) as [[]|] eqn:Hc; try done. clear Heq.
  destruct x as [sx|sx| |sx mx ex], y as [sy|sy| |sy my ey];
    try done; try (by destruct sx); try (by destruct sy);
    try (by destruct sx, sy).
  apply SFcompare_Eq_finite in Hc as (-> & -> & ->).
  apply SFcompare_refl. by rewrite flush_is_nan.
Qed.

(** A number that compares greater than zero and is not subnormal in a
    format is read by the kernels of the format as it is, and is no
    zero. *)
Lemma positive_not_flushed emax w :
  f_gt w (S754_zero false) = true → is_subnormal emax w = false →
  f_eq (flush emax w) (S754_zero false) = false.
Proof.
  intros Hgt Hsub. rewrite (flush_id _ _ Hsub).
  destruct w as [s|s| |s m e].
  - by destruct s; cbv in Hgt.
  - by destruct s.
  - done.
  - by destruct s.
Qed.

(** ** Gathering by index pairs and reshaping into rows *)

Lemma gather_nd_Some {A} (t : list (list A)) indices flat :
  gather_nd t indices = Some flat →
  length flat = length indices ∧
  ∀ i b j, indices !! i = Some (b, j) →
    (0 ≤ b)%Z ∧ (0 ≤ j)%Z ∧
    ∃ x, flat !! i = Some x ∧ at2 t (Z.to_nat b) (Z.to_nat j) = Some x.
Proof.
  unfold gather_nd. intros Hg. split.
  { symmetry. by eapply length_mapM. }
  apply mapM_Some in Hg. intros i b j Hi.
  destruct (Forall2_lookup_l _ _ _ _ _ Hg Hi) as (x & Hx & Hbj).
  simpl in Hbj. destruct (decide _) as [[??]|]; [|done]. eauto.
Qed.

Lemma reshape_replicate_lengths {A} (B k : nat) (l : list A) :
  length l = B * k →
  Forall (λ r, length r = k) (reshape (replicate B k) l).
Proof.
  revert l. induction B as [|B IH]; intros l Hl; simpl; constructor.
  - rewrite length_take. lia.
  - apply IH. rewrite length_drop. lia.
Qed.

Lemma tf_reshape_rows_Some {A} (B : nat) (flat : list A) rows :
  tf_reshape_rows B flat = Some rows →
  length rows = B ∧
  ∃ k, length flat = B * k ∧ Forall (λ r, length r = k) rows
       ∧ mjoin rows = flat.
Proof.
  unfold tf_reshape_rows. case_decide as HB.
  { case_decide as Hflat; [|done]. intros [= <-]. subst.
    split; [done|]. by exists 0. }
  case_decide as Hmod; [|done]. intros [= <-].
  assert (length flat = B * (length flat `div` B)) as Hk.
  { by apply Nat.Div0.div_exact. }
  split_and!; [by rewrite length_reshape, length_replicate|].
  exists (length flat `div` B). split_and!; [done| |].
  - by apply reshape_replicate_lengths.
  - apply join_reshape. rewrite sum_list_replicate. lia.
Qed.

Lemma index_pairs_lookup N B argmax_inds b n j :
  length argmax_inds = B →
  Forall (λ r, length r = N) argmax_inds →
  at2 argmax_inds b n = Some j →
  index_pairs N B argmax_inds !! (b * N + n) = Some (Z.of_nat b, j).
Proof.
  intros HB HN Hj. unfold at2 in Hj.
  destruct (argmax_inds !! b) as [row|] eqn:Hrow; [|done]. simpl in Hj.
  assert (b < B) by (apply lookup_lt_Some in Hrow; lia).
  assert (n < N).
  { apply lookup_lt_Some in Hj.
    rewrite Forall_lookup in HN. by rewrite (HN _ _ Hrow) in Hj. }
  assert (mjoin (map (λ b, replicate N b) (seqZ 0 (Z.of_nat B))) !! (b * N + n)
          = Some (Z.of_nat b)) as Hb.
  { apply join_lookup_Some_same_length'; [|done|].
    - rewrite Forall_fmap. apply Forall_forall. intros z _. simpl.
      by rewrite length_replicate.
    - exists (replicate N (Z.of_nat b)). split.
      + rewrite list_lookup_fmap, lookup_seqZ_lt by lia. done.
      + by apply lookup_replicate_2. }
  assert (mjoin argmax_inds !! (b * N + n) = Some j) as Hj'.
  { apply join_lookup_Some_same_length'; eauto. }
  unfold index_pairs. rewrite lookup_zip_with, Hb. simpl. by rewrite Hj'.
Qed.

Lemma index_pairs_length N B argmax_inds :
  length argmax_inds = B →
  Forall (λ r, length r = N) argmax_inds →
  length (index_pairs N B argmax_inds) = B * N.
Proof.
  intros HB HN. unfold index_pairs.
  rewrite length_zip_with, !length_join, !(sum_list_fmap_same N).
  - rewrite length_fmap, length_seqZ, HB. lia.
  - done.
  - rewrite Forall_fmap. apply Forall_forall. intros z _. simpl.
    by rewrite length_replicate.
Qed.

(** Gathering through the index pairs and reshaping into [rows_n] rows gives
    back a [[B, N]] tensor whose entry [[b, n]] is [t[b, j]] for the arg-max
    index [j] of [[b, n]], whenever the result has as many rows as there are
    batch entries. *)
Lemma gather_reshape_at2 {A} (t : list (list A)) N B argmax_inds flat rows :
  length argmax_inds = B →
  Forall (λ r, length r = N) argmax_inds →
  gather_nd t (index_pairs N B argmax_inds) = Some flat →
  tf_reshape_rows B flat = Some rows →
  length rows = B ∧ Forall (λ r, length r = N) rows ∧
  ∀ b n j, at2 argmax_inds b n = Some j →
    (0 ≤ j)%Z ∧ ∃ x, at2 rows b n = Some x ∧ at2 t b (Z.to_nat j) = Some x.
Proof.
  intros HB HN [Hlen Hg]%gather_nd_Some
    (Hrows & k & Hk & Hrk & Hjoin)%tf_reshape_rows_Some.
  rewrite (index_pairs_length N B) in Hlen by done.
  destruct (decide (B = 0)) as [->|HB0].
  { destruct rows; [|done]. destruct argmax_inds; [|done].
    split_and!; [done..|]. by intros [|b] n j. }
  assert (k = N) as -> by nia.
  split_and!; [done..|]. intros b n j Hj.
  pose proof (index_pairs_lookup N B _ b n j HB HN Hj) as Hi.
  destruct (Hg _ _ _ Hi) as (_ & Hj0 & x & Hx & Ht).
  rewrite Nat2Z.id in Ht. split; [done|]. exists x. split; [|done].
  assert (n < N).
  { unfold at2 in Hj. destruct (argmax_inds !! b) as [row|] eqn:Hrow; [|done].
    simpl in Hj. apply lookup_lt_Some in Hj.
    rewrite Forall_lookup in HN. by rewrite (HN _ _ Hrow) in Hj. }
  rewrite <- Hjoin in Hx.
  apply (join_lookup_Some_same_length' N rows b n x Hrk) in Hx as (r & Hr & Hx);
    [|done].
  unfold at2. by rewrite Hr.
Qed.

(** ** Shapes *)

Lemma shape2_map2 {A C} (g : A → C) B N (t : list (list A)) :
  shape2 B N t → shape2 B N (map2 g t).
Proof.
  intros [HB HN]. split; unfold map2; [by rewrite length_fmap|].
  rewrite Forall_fmap. eapply Forall_impl; [|exact HN].
  intros r Hr. simpl. by rewrite length_fmap.
Qed.

Lemma shape2_zip2 {A C D} (f : A → C → D) B N (t : list (list A)) u :
  shape2 B N t → shape2 B N u → shape2 B N (zip2 f t u).
Proof.
  intros [HB HN] [HB' HN']. split; unfold zip2.
  { rewrite length_zip_with. lia. }
  apply Forall_lookup. intros i r Hr.
  apply lookup_zip_with_Some in Hr as (p & q & -> & Hp & Hq).
  rewrite length_zip_with, (Forall_lookup_1 _ _ _ _ HN Hp),
    (Forall_lookup_1 _ _ _ _ HN' Hq). lia.
Qed.

Ltac solve_shape2 :=
  repeat first [assumption | apply shape2_zip2 | apply shape2_map2].

Lemma shape2_Forall2 {A C} B N (t : list (list A)) (u : list (list C)) :
  shape2 B N t → Forall2 (λ p q, length p = length q) t u → shape2 B N u.
Proof.
  intros [HB HN] H2. split.
  { apply Forall2_length in H2. congruence. }
  clear HB. induction H2 as [|p q t u Hpq _ IH]; [done|].
  inversion HN; subst. constructor; [congruence|auto].
Qed.

Lemma shape2_at2_is_Some {A} B N (t : list (list A)) b n :
  shape2 B N t → b < B → n < N → is_Some (at2 t b n).
Proof.
  intros [HB HN] Hb Hn. unfold at2.
  destruct (lookup_lt_is_Some_2 t b) as [r Hr]; [lia|]. rewrite Hr. simpl.
  apply lookup_lt_is_Some_2. rewrite Forall_lookup in HN.
  by rewrite (HN _ _ Hr).
Qed.

Lemma shape2_at2_lt {A} B N (t : list (list A)) b n x :
  shape2 B N t → at2 t b n = Some x → b < B ∧ n < N.
Proof.
  intros [HB HN] Hx. unfold at2 in Hx.
  destruct (t !! b) as [r|] eqn:Hr; [|done]. simpl in Hx.
  split; [apply lookup_lt_Some in Hr; lia|].
  apply lookup_lt_Some in Hx. rewrite Forall_lookup in HN.
  by rewrite (HN _ _ Hr) in Hx.
Qed.

(** ** [compute_gt_annotations], entry by entry *)

Section MatcherLemmas.
Variable overlap : Box → Box → float.

Lemma bbox_overlap_at2 (anchors : list Box) (annotations : list (list Box)) b n :
  at2 (bbox_overlap overlap
         (replicate (length annotations) (map (box_map F64.cast) anchors))
         (map2 (box_map F64.cast) annotations)) b n
  = gts ← annotations !! b; a ← anchors !! n; Some (overlap_row overlap a gts).
Proof.
  unfold at2, bbox_overlap, map2. rewrite lookup_zip_with.
  rewrite list_lookup_fmap.
  destruct (annotations !! b) as [gts|] eqn:Hgts; simpl.
  - rewrite lookup_replicate_2 by (by eapply lookup_lt_Some). simpl.
    rewrite !list_lookup_fmap. by destruct (anchors !! n).
  - by destruct (replicate _ _ !! b).
Qed.

Lemma bbox_overlap_shape (anchors : list Box) (annotations : list (list Box)) :
  shape2 (length annotations) (length anchors)
    (bbox_overlap overlap
       (replicate (length annotations) (map (box_map F64.cast) anchors))
       (map2 (box_map F64.cast) annotations)).
Proof.
  unfold bbox_overlap, map2. split.
  - rewrite length_zip_with, length_replicate, length_fmap. lia.
  - apply Forall_lookup. intros i r Hr.
    apply lookup_zip_with_Some in Hr as (p & q & -> & Hp & Hq).
    apply lookup_replicate in Hp as [-> _]. by rewrite !length_fmap.
Qed.

Lemma compute_gt_annotations_Some anchors annotations neg pos P I idx :
  compute_gt_annotations overlap anchors annotations neg pos
    = Some (P, I, idx) →
  let B := length annotations in
  let N := length anchors in
  ∃ argmax_inds,
    shape2 B N argmax_inds ∧ idx = index_pairs N B argmax_inds ∧
    shape2 B N P ∧ shape2 B N I ∧
    ∀ b n gts a, annotations !! b = Some gts → anchors !! n = Some a →
      ∃ j m gb,
        at2 argmax_inds b n = Some j ∧
        tf_argmax (overlap_row overlap a gts) = Some j ∧
        tf_reduce_max (overlap_row overlap a gts) = Some m ∧
        (0 ≤ j)%Z ∧ anchors !! Z.to_nat j = Some gb ∧
        let small := small_area (box_map F64.cast gb) in
        at2 P b n = Some (f_ge m pos && negb small) ∧
        at2 I b n = Some (f_gt m neg && negb (f_ge m pos && negb small)
                          || small).
Proof.
  intros Hc B N. unfold compute_gt_annotations in Hc.
  apply bind_Some in Hc as (argm & Hargm & Hc).
  apply bind_Some in Hc as (maxo & Hmaxo & Hc).
  apply bind_Some in Hc as (flat & Hflat & Hc).
  apply bind_Some in Hc as (boxes & Hboxes & Hc).
  injection Hc as <- <- <-.
  apply mapM2_Some in Hargm as [Hargm_shape Hargm].
  apply mapM2_Some in Hmaxo as [Hmaxo_shape Hmaxo].
  pose proof (bbox_overlap_shape anchors annotations) as Hov.
  eapply shape2_Forall2 in Hargm_shape; [|exact Hov].
  eapply shape2_Forall2 in Hmaxo_shape; [|exact Hov].
  fold B N in Hargm_shape, Hmaxo_shape.
  destruct (gather_reshape_at2 _ N B argm flat boxes
              (proj1 Hargm_shape) (proj2 Hargm_shape) Hflat Hboxes)
    as (Hb1 & Hb2 & Hgather).
  assert (shape2 B N boxes) as Hboxes_shape by done.
  exists argm. split_and!; [done | done | | |].
  { solve_shape2. }
  { solve_shape2. }
  intros b n gts a Hgts Ha.
  pose proof (Hargm b n) as Hj. pose proof (Hmaxo b n) as Hm.
  rewrite bbox_overlap_at2, Hgts in Hj, Hm. simpl in Hj, Hm.
  rewrite Ha in Hj, Hm. simpl in Hj, Hm.
  assert (b < B) by (by eapply lookup_lt_Some).
  assert (n < N) by (by eapply lookup_lt_Some).
  destruct (shape2_at2_is_Some B N argm b n) as [j Hj']; [done..|].
  destruct (shape2_at2_is_Some B N maxo b n) as [m Hm']; [done..|].
  destruct (Hgather b n j Hj') as (Hj0 & gb' & Hgb' & Hgb).
  unfold at2 in Hgb. rewrite lookup_replicate_2 in Hgb by done.
  simpl in Hgb. rewrite list_lookup_fmap in Hgb.
  destruct (anchors !! Z.to_nat j) as [gb|] eqn:Hgbj; [|done].
  simpl in Hgb. injection Hgb as <-.
  exists j, m, gb. rewrite Hj' in Hj. rewrite Hm' in Hm.
  split_and!; [done..| |].
  - repeat (progress (rewrite ?at2_zip2, ?at2_map2, ?Hm', ?Hgb'; simpl)).
    done.
  - repeat (progress (rewrite ?at2_zip2, ?at2_map2, ?Hm', ?Hgb'; simpl)).
    done.
Qed.
End MatcherLemmas.

Lemma shape2_bcast {A C D} (f : A → C → D) B N (t : list (list A)) v r :
  bcast_rows f t v = Some r → length v = N → shape2 B N t → shape2 B N r.
Proof.
  intros [_ ->]%bcast_rows_Some Hv [HB HN]. split; [by rewrite length_fmap|].
  rewrite Forall_fmap. eapply Forall_impl; [|exact HN].
  intros row Hrow. simpl in *. rewrite length_zip_with. lia.
Qed.

Lemma bbox_transform_shape anchors gt_boxes T :
  bbox_transform anchors gt_boxes = Some T →
  shape2 (length gt_boxes) (length anchors) T.
Proof.
  intros HT.
  assert (shape2 (length gt_boxes) (length anchors) gt_boxes) as Hgt.
  { split; [done|]. apply bbox_transform_is_Some. by eexists. }
  unfold bbox_transform in HT.
  repeat match type of HT with
  | (_ ≫= _) = Some _ =>
      let H := fresh "H" in
      apply bind_Some in HT as (? & H & HT);
      try (let H' := fresh "H" in apply bind_Some in H as (? & H' & H))
  end.
  injection HT as <-. unfold stack4.
  repeat first
    [ assumption
    | apply shape2_zip2 | apply shape2_map2
    | eapply shape2_bcast; [eassumption| |] ];
    rewrite ?length_zip_with, ?length_fmap; lia.
Qed.

(** ** [anchor_targets_bbox], entry by entry *)

Section EncoderLemmas.
Variable overlap : Box → Box → float.

Lemma padding_demotion_Some anchors images bndboxes labels pad neg pos
    P' I' cl idx :
  padding_demotion overlap anchors images bndboxes labels pad neg pos
    = Some (P', I', cl, idx) →
  let B := length bndboxes in
  let N := length anchors in
  ∃ P I argmax_inds,
    compute_gt_annotations overlap anchors bndboxes neg pos
      = Some (P, I, idx) ∧
    batch images = B ∧
    shape2 B N argmax_inds ∧ idx = index_pairs N B argmax_inds ∧
    shape2 B N P ∧ shape2 B N I ∧
    shape2 B N cl ∧ shape2 B N P' ∧ shape2 B N I' ∧
    (∀ b n j, at2 argmax_inds b n = Some j →
       (0 ≤ j)%Z ∧ ∃ l, at2 cl b n = Some l
                        ∧ at2 labels b (Z.to_nat j) = Some l) ∧
    (∀ b n, at2 P' b n =
       p ← at2 P b n; l ← at2 cl b n;
       Some (p && negb (bool_decide (l = pad)))) ∧
    (∀ b n, at2 I' b n =
       i ← at2 I b n; l ← at2 cl b n;
       Some (i || negb (negb (bool_decide (l = pad))))).
Proof.
  intros Hp B N. unfold padding_demotion in Hp.
  apply bind_Some in Hp as ([[P I] idx'] & Hc & Hp).
  apply bind_Some in Hp as (flat & Hflat & Hp).
  apply bind_Some in Hp as (cl' & Hcl & Hp).
  apply bind_Some in Hp as (P'' & HP' & Hp).
  apply bind_Some in Hp as (I'' & HI' & Hp).
  injection Hp as -> -> -> ->.
  destruct (compute_gt_annotations_Some _ _ _ _ _ _ _ _ Hc)
    as (argm & Hargm & -> & HP & HI & _).
  fold B N in Hargm, HP, HI.
  apply zip2_same_Some in HP' as [HP'shape ->].
  apply zip2_same_Some in HI' as [_ ->].
  assert (batch images = B) as HB.
  { apply tf_reshape_rows_Some in Hcl as (Hlen & _).
    apply Forall2_length in HP'shape. unfold map2 in HP'shape.
    rewrite length_fmap in HP'shape. destruct HP. congruence. }
  rewrite HB in Hcl.
  destruct (gather_reshape_at2 _ N B argm flat cl
              (proj1 Hargm) (proj2 Hargm) Hflat Hcl) as (Hc1 & Hc2 & Hg).
  assert (shape2 B N cl) as Hclshape by done.
  exists P, I, argm.
  split_and!; try done; try solve_shape2.
  - intros b n. by rewrite at2_zip2, at2_map2; destruct (at2 P b n), (at2 cl b n).
  - intros b n. rewrite at2_zip2, !at2_map2.
    by destruct (at2 I b n), (at2 cl b n).
Qed.

Lemma out_of_image_masking_Some anchors images bndboxes labels pad neg pos
    Pf If cl idx :
  out_of_image_masking overlap anchors images bndboxes labels pad neg pos
    = Some (Pf, If, cl, idx) →
  ∃ I', padding_demotion overlap anchors images bndboxes labels pad neg pos
          = Some (Pf, I', cl, idx) ∧
    shape2 (length bndboxes) (length anchors) If ∧
    ∀ b n, at2 If b n =
      i ← at2 I' b n; o ← out_mask anchors images !! n; Some (i || o).
Proof.
  intros Ho. unfold out_of_image_masking in Ho.
  apply bind_Some in Ho as ([[[P' I'] cl'] idx'] & Hp & Ho).
  apply bind_Some in Ho as (If' & HIf & Ho).
  injection Ho as -> -> -> ->.
  exists I'. split_and!; [done| |intros b n; by apply at2_bcast_rows].
  destruct (padding_demotion_Some _ _ _ _ _ _ _ _ _ _ _ Hp)
    as (? & ? & ? & _ & _ & _ & _ & _ & _ & _ & _ & [HB HN] & _).
  apply bcast_rows_Some in HIf as [Hlen ->]. split.
  - by rewrite length_fmap.
  - rewrite Forall_fmap. apply Forall_lookup. intros k r Hr. simpl.
    rewrite length_zip_with, <- (Forall_lookup_1 _ _ _ _ Hlen Hr),
      (Forall_lookup_1 _ _ _ _ HN Hr). lia.
Qed.

Lemma anchor_targets_bbox_Some anchors images bndboxes labels C pad neg pos
    R L :
  anchor_targets_bbox overlap anchors images bndboxes labels C pad neg pos
    = Some (R, L) →
  let B := length bndboxes in
  let N := length anchors in
  ∃ Pf If cl idx,
    out_of_image_masking overlap anchors images bndboxes labels pad neg pos
      = Some (Pf, If, cl, idx) ∧
    shape2 B N Pf ∧ shape2 B N If ∧ shape2 B N cl ∧
    shape2 B N R ∧ shape2 B N L ∧
    ∀ b n p i l,
      at2 Pf b n = Some p → at2 If b n = Some i → at2 cl b n = Some l →
      ∃ reg, length reg = 4 ∧
        at2 R b n = Some (reg ++ [anchor_state p i]) ∧
        at2 L b n = Some (map F32.of_Z (one_hot C (class_index p i l))
                          ++ [anchor_state p i]).
Proof.
  intros Ha B N. unfold anchor_targets_bbox in Ha.
  apply bind_Some in Ha as ([[[Pf If] cl] idx] & Ho & Ha).
  apply bind_Some in Ha as (flat & Hflat & Ha).
  apply bind_Some in Ha as (cb & Hcb & Ha).
  apply bind_Some in Ha as (T & HT & Ha).
  injection Ha as <- <-.
  destruct (out_of_image_masking_Some _ _ _ _ _ _ _ _ _ _ _ Ho)
    as (I' & Hp & HIf & _).
  destruct (padding_demotion_Some _ _ _ _ _ _ _ _ _ _ _ Hp)
    as (P & I & argm & _ & HB & Hargm & -> & _ & _ & Hcl & HPf & _).
  fold B N in HB, Hargm, Hcl, HPf, HIf.
  rewrite HB in Hcb.
  destruct (gather_reshape_at2 _ N B argm flat cb
              (proj1 Hargm) (proj2 Hargm) Hflat Hcb) as (Hcb1 & Hcb2 & Hg).
  assert (shape2 B N cb) as Hcbshape by done.
  pose proof (bbox_transform_shape _ _ _ HT) as HTshape.
  rewrite Hcb1 in HTshape. fold N in HTshape.
  exists Pf, If, cl, (index_pairs N B argm).
  split_and!; try done; try solve_shape2.
  intros b n p i l Hpbn Hibn Hlbn.
  destruct (shape2_at2_lt _ _ _ _ _ _ HPf Hpbn) as [Hb Hn].
  destruct (shape2_at2_is_Some B N argm b n Hargm Hb Hn) as [j Hj].
  destruct (Hg b n j Hj) as (_ & g & Hgbn & _).
  destruct (lookup_lt_is_Some_2 anchors n Hn) as [a Han].
  pose proof (bbox_transform_at2 _ _ _ b n a g HT Han Hgbn) as HTbn.
  assert (∃ reg, at2 T b n = Some reg ∧ length reg = 4)
    as (reg & Hreg & Hlen) by (eexists; split; [exact HTbn|done]).
  exists reg. split_and!; [done| |].
  - repeat (progress (rewrite ?at2_zip2, ?at2_map2, ?Hreg, ?Hpbn, ?Hibn;
                      simpl)). reflexivity.
  - repeat (progress (rewrite ?at2_zip2, ?at2_map2, ?Hpbn, ?Hibn, ?Hlbn;
                      simpl)). reflexivity.
Qed.
End EncoderLemmas.

(** ** When the functions return *)

Lemma tf_argmax_bounds row j :
  tf_argmax row = Some j → (0 ≤ j < Z.of_nat (length row))%Z.
Proof.
  destruct row as [|v0 tl]; [done|]. unfold tf_argmax. intros [= <-].
  assert (∀ (l : list (Z * float)) (acc : Z * float) (n : Z),
            (0 ≤ acc.1 < n)%Z → Forall (λ iv, (0 ≤ iv.1 < n)%Z) l →
            (0 ≤ (foldl (λ (acc : Z * float) (iv : Z * float),
                           if f_gt iv.2 acc.2 then iv else acc) acc l).1 < n)%Z)
    as Hfold.
  { induction l as [|iv l IH]; intros acc n Hacc Hl; [done|].
    inversion Hl; subst. simpl. apply IH; [|done].
    by destruct (f_gt iv.2 acc.2). }
  apply Hfold; [simpl; lia|].
  apply Forall_lookup. intros i [k v] Hi.
  apply lookup_zip_with_Some in Hi as (k' & v' & [= <- <-] & Hk & _).
  apply lookup_seqZ in Hk. simpl. lia.
Qed.

Lemma tf_argmax_is_Some row : row ≠ [] → is_Some (tf_argmax row).
Proof. destruct row; [done|]. by eexists. Qed.

Lemma tf_reduce_max_is_Some row : row ≠ [] → is_Some (tf_reduce_max row).
Proof. intros _. unfold tf_reduce_max. destruct (existsb _ _); by eexists. Qed.

Lemma gather_nd_is_Some {A} (t : list (list A)) indices :
  Forall (λ ix : Z * Z, (0 ≤ ix.1)%Z ∧ (0 ≤ ix.2)%Z ∧
                        is_Some (at2 t (Z.to_nat ix.1) (Z.to_nat ix.2)))
         indices →
  is_Some (gather_nd t indices).
Proof.
  intros Hall. unfold gather_nd. apply mapM_is_Some.
  eapply Forall_impl; [|exact Hall]. intros ix (? & ? & ?). simpl.
  by rewrite decide_True by done.
Qed.

Lemma index_pairs_elements N B argmax_inds i ix :
  shape2 B N argmax_inds →
  index_pairs N B argmax_inds !! i = Some ix →
  ∃ b n, b < B ∧ ix.1 = Z.of_nat b ∧ at2 argmax_inds b n = Some ix.2.
Proof.
  intros [HB HN] Hi. unfold index_pairs in Hi.
  apply lookup_zip_with_Some in Hi as (zb & j & -> & Hzb & Hj).
  apply (join_lookup_Some_same_length N) in Hj as (b & row & n & Hrow & Hn & ->);
    [|done].
  assert (n < N).
  { apply lookup_lt_Some in Hn. by rewrite (Forall_lookup_1 _ _ _ _ HN Hrow) in Hn. }
  assert (b < B) by (apply lookup_lt_Some in Hrow; lia).
  exists b, n. split_and!; [done| |by unfold at2; rewrite Hrow].
  assert (mjoin (map (λ b, replicate N b) (seqZ 0 (Z.of_nat B))) !! (b * N + n)
          = Some (Z.of_nat b)) as Hb.
  { apply join_lookup_Some_same_length'; [|done|].
    - rewrite Forall_fmap. apply Forall_forall. intros z _. simpl.
      by rewrite length_replicate.
    - exists (replicate N (Z.of_nat b)). split.
      + rewrite list_lookup_fmap, lookup_seqZ_lt by lia. done.
      + by apply lookup_replicate_2. }
  simpl. congruence.
Qed.

Lemma tf_reshape_rows_is_Some {A} (B N : nat) (flat : list A) :
  B ≠ 0 → length flat = B * N → is_Some (tf_reshape_rows B flat).
Proof.
  intros HB Hlen. unfold tf_reshape_rows.
  rewrite decide_False by done.
  rewrite decide_True; [by eexists|].
  rewrite Hlen, Nat.mul_comm. by apply Nat.Div0.mod_mul.
Qed.

Lemma zip2_same_complete {A C D} (f : A → C → D) B N t u :
  shape2 B N t → shape2 B N u → zip2_same f t u = Some (zip2 f t u).
Proof.
  intros [HB HN] [HB' HN']. unfold zip2_same, zip2.
  rewrite decide_True by congruence.
  apply mapM_Some. apply Forall2_same_length_lookup. split.
  { rewrite length_zip_with, length_zip_with. done. }
  intros i [p q] r Hi Hr.
  apply lookup_zip_with_Some in Hi as (p' & q' & [= <- <-] & Hp & Hq).
  rewrite lookup_zip_with, Hp in Hr. simpl in Hr. rewrite Hq in Hr.
  injection Hr as <-. simpl. unfold zip_with_same.
  rewrite decide_True; [done|].
  by rewrite (Forall_lookup_1 _ _ _ _ HN Hp), (Forall_lookup_1 _ _ _ _ HN' Hq).
Qed.

(** Gathering through the index pairs succeeds when every arg-max index is
    in range of its row of [t]. *)
Lemma gather_index_pairs_is_Some {A} (t : list (list A)) N B argmax_inds :
  shape2 B N argmax_inds →
  (∀ b n j, at2 argmax_inds b n = Some j →
     (0 ≤ j)%Z ∧ is_Some (at2 t b (Z.to_nat j))) →
  ∃ flat, gather_nd t (index_pairs N B argmax_inds) = Some flat
          ∧ length flat = B * N.
Proof.
  intros Hshape Hin.
  destruct (gather_nd_is_Some t (index_pairs N B argmax_inds)) as [flat Hflat].
  { apply Forall_lookup. intros i ix Hi.
    destruct (index_pairs_elements _ _ _ _ _ Hshape Hi)
      as (b & n & Hb & Hix & Hj).
    destruct (Hin b n _ Hj) as [Hj0 Hsome].
    rewrite Hix, Nat2Z.id. split_and!; [lia|done|done]. }
  exists flat. split; [done|].
  apply gather_nd_Some in Hflat as [-> _].
  destruct Hshape. by apply index_pairs_length.
Qed.

Section Totality.
Variable overlap : Box → Box → float.

(** [compute_gt_annotations] returns when there is a batch entry, every batch
    entry has an annotation, and no batch entry has more annotations than
    there are anchors (the arg-max index of an annotation is used to index
    the anchors). *)
Lemma compute_gt_annotations_is_Some anchors annotations neg pos :
  annotations ≠ [] →
  Forall (λ gts, 0 < length gts ≤ length anchors) annotations →
  is_Some (compute_gt_annotations overlap anchors annotations neg pos).
Proof.
  intros Hne Hrows. unfold compute_gt_annotations.
  set (overlaps := bbox_overlap _ _ _).
  assert (∀ b n row, at2 overlaps b n = Some row →
            ∃ gts a, annotations !! b = Some gts ∧ anchors !! n = Some a
                     ∧ row = overlap_row overlap a gts) as Hov.
  { intros b n row Hrow. subst overlaps. rewrite bbox_overlap_at2 in Hrow.
    destruct (annotations !! b) as [gts|]; [|done]. simpl in Hrow.
    destruct (anchors !! n) as [a|]; [|done]. naive_solver. }
  assert (shape2 (length annotations) (length anchors) overlaps) as Hovshape
    by apply bbox_overlap_shape.
  set (B := length annotations) in *. set (N := length anchors) in *.
  assert (B ≠ 0) as HB0 by (subst B; by destruct annotations).
  assert (∀ b n row, at2 overlaps b n = Some row →
            0 < length row ≤ N) as Hlen.
  { intros b n row (gts & a & Hgts & Ha & ->)%Hov.
    unfold overlap_row. rewrite !length_fmap.
    exact (Forall_lookup_1 _ _ _ _ Hrows Hgts). }
  assert (∀ (f : list float → option Z), (∀ row, row ≠ [] → is_Some (f row)) →
            is_Some (mapM (mapM f) overlaps)) as HmapZ.
  { intros f Hf. apply mapM_is_Some, Forall_lookup. intros b rows Hb. simpl.
    apply mapM_is_Some, Forall_lookup. intros n row Hn. simpl. apply Hf.
    destruct (Hlen b n row) as [Hpos _].
    - unfold at2. by rewrite Hb.
    - destruct row; [simpl in Hpos; lia|done]. }
  assert (∀ (f : list float → option float),
            (∀ row, row ≠ [] → is_Some (f row)) →
            is_Some (mapM (mapM f) overlaps)) as HmapF.
  { intros f Hf. apply mapM_is_Some, Forall_lookup. intros b rows Hb. simpl.
    apply mapM_is_Some, Forall_lookup. intros n row Hn. simpl. apply Hf.
    destruct (Hlen b n row) as [Hpos _].
    - unfold at2. by rewrite Hb.
    - destruct row; [simpl in Hpos; lia|done]. }
  destruct (HmapZ tf_argmax tf_argmax_is_Some) as [argm Hargm].
  destruct (HmapF tf_reduce_max tf_reduce_max_is_Some) as [maxo Hmaxo].
  rewrite Hargm, Hmaxo. simpl.
  pose proof (mapM2_Some _ _ _ Hargm) as [Hshape Hat].
  eapply shape2_Forall2 in Hshape; [|exact Hovshape].
  destruct (gather_index_pairs_is_Some
              (replicate B (map (box_map F64.cast) anchors)) N B argm Hshape)
    as (flat & Hflat & Hflen).
  { intros b n j Hj.
    destruct (shape2_at2_lt _ _ _ _ _ _ Hshape Hj) as [Hb Hn].
    rewrite Hat in Hj. fold overlaps in Hj.
    destruct (at2 overlaps b n) as [row|] eqn:Hrow; [|done]. simpl in Hj.
    apply tf_argmax_bounds in Hj. destruct (Hlen _ _ _ Hrow) as [_ Hle].
    split; [lia|]. unfold at2. rewrite lookup_replicate_2 by done. simpl.
    apply lookup_lt_is_Some_2. rewrite length_fmap. fold N. lia. }
  unfold index_pairs in Hflat. fold B N. rewrite Hflat. simpl.
  destruct (tf_reshape_rows_is_Some B N flat HB0 Hflen) as [boxes ->].
  by eexists.
Qed.

(** [anchor_targets_bbox] returns on an input that follows the docstring:
    one batch size in [images], [bndboxes] and [labels], a label for every
    box, and in every batch entry at least one box and at most as many as
    there are anchors. *)
Lemma anchor_targets_bbox_is_Some anchors images bndboxes labels C pad neg pos :
  batch images = length bndboxes →
  bndboxes ≠ [] →
  Forall (λ gts, 0 < length gts ≤ length anchors) bndboxes →
  Forall2 (λ gts ls, length gts = length ls) bndboxes labels →
  is_Some (anchor_targets_bbox overlap anchors images bndboxes labels
                               C pad neg pos).
Proof.
  intros Hbatch Hne Hrows Hlabels.
  set (B := length bndboxes). set (N := length anchors).
  destruct (compute_gt_annotations_is_Some anchors bndboxes neg pos Hne Hrows)
    as [[[P I] idx] Hc].
  destruct (compute_gt_annotations_Some _ _ _ _ _ _ _ _ Hc)
    as (argm & Hargm & -> & HP & HI & Hentry).
  fold B N in Hargm, HP, HI.
  assert (∀ b n j, at2 argm b n = Some j →
            ∃ gts, bndboxes !! b = Some gts ∧
                   (0 ≤ j < Z.of_nat (length gts))%Z) as Hj.
  { intros b n j Hjbn.
    destruct (shape2_at2_lt _ _ _ _ _ _ Hargm Hjbn) as [Hb Hn].
    destruct (lookup_lt_is_Some_2 bndboxes b Hb) as [gts Hgts].
    destruct (lookup_lt_is_Some_2 anchors n Hn) as [a Ha].
    destruct (Hentry b n gts a Hgts Ha)
      as (j' & m & gb & Hj' & Hargmax & _).
    rewrite Hjbn in Hj'. injection Hj' as <-.
    apply tf_argmax_bounds in Hargmax.
    unfold overlap_row in Hargmax. rewrite !length_fmap in Hargmax. eauto. }
  destruct (gather_index_pairs_is_Some labels N B argm Hargm)
    as (lflat & Hlflat & Hllen).
  { intros b n j (gts & Hgts & Hjr)%Hj. split; [lia|].
    destruct (Forall2_lookup_l _ _ _ _ _ Hlabels Hgts) as (ls & Hls & Hlen).
    unfold at2. rewrite Hls. simpl. apply lookup_lt_is_Some_2. lia. }
  destruct (gather_index_pairs_is_Some bndboxes N B argm Hargm)
    as (bflat & Hbflat & Hblen).
  { intros b n j (gts & Hgts & Hjr)%Hj. split; [lia|].
    unfold at2. rewrite Hgts. simpl. apply lookup_lt_is_Some_2. lia. }
  assert (B ≠ 0) as HB0 by (subst B; by destruct bndboxes).
  destruct (tf_reshape_rows_is_Some B N lflat HB0 Hllen) as [cl Hcl].
  destruct (tf_reshape_rows_is_Some B N bflat HB0 Hblen) as [cb Hcb].
  destruct (gather_reshape_at2 _ N B argm lflat cl
              (proj1 Hargm) (proj2 Hargm) Hlflat Hcl) as (Hcl1 & Hcl2 & _).
  destruct (gather_reshape_at2 _ N B argm bflat cb
              (proj1 Hargm) (proj2 Hargm) Hbflat Hcb) as (Hcb1 & Hcb2 & _).
  assert (shape2 B N cl) as Hclshape by done.
  destruct (proj1 (bbox_transform_is_Some anchors cb) Hcb2) as [T HT].
  subst B N.
  unfold anchor_targets_bbox, out_of_image_masking, padding_demotion.
  rewrite Hc. simpl. rewrite Hlflat. simpl. rewrite Hbatch, Hcl. simpl.
  rewrite (zip2_same_complete andb (length bndboxes) (length anchors))
    by solve_shape2. simpl.
  rewrite (zip2_same_complete orb (length bndboxes) (length anchors))
    by solve_shape2. simpl.
  rewrite bcast_rows_complete.
  2:{ assert (shape2 (length bndboxes) (length anchors) (zip2 orb I
        (map2 negb (map2 (λ l, negb (bool_decide (l = pad))) cl)))) as [_ HN]
        by solve_shape2.
      eapply Forall_impl; [|exact HN]. intros r Hr. simpl in *. rewrite Hr.
      unfold out_mask.
      rewrite length_zip_with, !length_fmap, !length_zip_with, !length_fmap.
      lia. }
  simpl. rewrite Hbflat. simpl. rewrite Hcb. simpl. rewrite HT. simpl.
  by eexists.
Qed.
End Totality.

(** ** The regression encoding *)

(** C5: for every anchor and every ground-truth box (in particular for every
    anchor of positive width and height), [bbox_transform] returns, component
    by component, [((gt.x1 − x1) / w, (gt.y1 − y1) / h, (gt.x2 − x2) / w,
    (gt.y2 − y2) / h)] with [w = x2 − x1] and [h = y2 − y1], minus the mean
    [0], divided by the std [0.2], all in the float32 arithmetic of the
    kernels; for the anchor [(0, 0, 10, 10)] and the ground truth
    [(1, 1, 9, 9)] the target is [(0.5, 0.5, −0.5, −0.5)].  A quotient below
    the normal numbers is a zero: for the anchor [(0, 0, 2^100, 1)] and the
    ground truth [(2^-40, 0, 2^100, 1)] the target is [(0, 0, 0, 0)]. *)
Theorem bbox_transform_formula :
  (∀ anchors gt_boxes,
     Forall (λ row, length row = length anchors) gt_boxes →
     ∃ T, bbox_transform anchors gt_boxes = Some T ∧
       ∀ b n a g,
         anchors !! n = Some a →
         at2 gt_boxes b n = Some g →
         let ax1 := F32.cast (x1 a) in let ay1 := F32.cast (y1 a) in
         let ax2 := F32.cast (x2 a) in let ay2 := F32.cast (y2 a) in
         let gx1 := F32.cast (x1 g) in let gy1 := F32.cast (y1 g) in
         let gx2 := F32.cast (x2 g) in let gy2 := F32.cast (y2 g) in
         let w := F32.sub ax2 ax1 in
         let h := F32.sub ay2 ay1 in
         let mean0 := S754_zero false in
         let std02 := F32.cast (F64.div (F64.of_Z 1) (F64.of_Z 5)) in
         at2 T b n = Some
           [ F32.div (F32.sub (F32.div (F32.sub gx1 ax1) w) mean0) std02;
             F32.div (F32.sub (F32.div (F32.sub gy1 ay1) h) mean0) std02;
             F32.div (F32.sub (F32.div (F32.sub gx2 ax2) w) mean0) std02;
             F32.div (F32.sub (F32.div (F32.sub gy2 ay2) h) mean0) std02 ]) ∧
  bbox_transform [bx 0 0 10 10] [[bx 1 1 9 9]]
    = Some [[[f32 1 2; f32 1 2; f32 (-1) 2; f32 (-1) 2]]] ∧
  bbox_transform [mkBox (F64.of_Z 0) (F64.of_Z 0) (pow2 100) (F64.of_Z 1)]
                 [[mkBox (pow2 (-40)) (F64.of_Z 0) (pow2 100) (F64.of_Z 1)]]
    = Some [[[F32.of_Z 0; F32.of_Z 0; F32.of_Z 0; F32.of_Z 0]]].
Proof.
  split; [|by vm_compute].
  intros anchors gt_boxes [T HT]%bbox_transform_is_Some.
  exists T. split; [done|]. intros b n a g Ha Hg.
  exact (bbox_transform_at2 anchors gt_boxes T b n a g HT Ha Hg).
Qed.

Lemma bbox_transform_formula_witness :
  ∃ T, bbox_transform [bx 0 0 10 10] [[bx 1 1 9 9]] = Some T ∧
    at2 T 0 0 = Some [f32 1 2; f32 1 2; f32 (-1) 2; f32 (-1) 2].
Proof.
  destruct (proj1 bbox_transform_formula [bx 0 0 10 10] [[bx 1 1 9 9]]
              ltac:(repeat constructor)) as (T & HT & Hat).
  exists T. split; [exact HT|].
  exact (Hat 0 0 (bx 0 0 10 10) (bx 1 1 9 9) eq_refl eq_refl).
Defined.

(** C9, as the code has it: [bbox_transform] has no check of the anchor
    geometry.  It returns a tensor for every input whose rows of ground-truth
    boxes are as long as the list of anchors, degenerate anchors included;
    where the float32 width (height) of an anchor is a zero, the x (y)
    components of its targets are infinite or NaN; where the float32
    coordinates are finite and the width and height are finite and positive,
    no component is NaN (it is finite, or infinite by float32 overflow). *)
Theorem bbox_transform_no_geometry_check anchors gt_boxes :
  Forall (λ row, length row = length anchors) gt_boxes →
  ∃ T, bbox_transform anchors gt_boxes = Some T ∧
    ∀ b n a g, anchors !! n = Some a → at2 gt_boxes b n = Some g →
      ∃ dx1 dy1 dx2 dy2, at2 T b n = Some [dx1; dy1; dx2; dy2] ∧
        let a' := box_map F32.cast a in
        let g' := box_map F32.cast g in
        let w := F32.sub (x2 a') (x1 a') in
        let h := F32.sub (y2 a') (y1 a') in
        (f_eq w (S754_zero false) = true →
           is_finite dx1 = false ∧ is_finite dx2 = false) ∧
        (f_eq h (S754_zero false) = true →
           is_finite dy1 = false ∧ is_finite dy2 = false) ∧
        (is_finite (x1 a') = true → is_finite (x2 a') = true →
         is_finite (x1 g') = true → is_finite (x2 g') = true →
         is_finite w = true → f_gt w (S754_zero false) = true →
           is_nan dx1 = false ∧ is_nan dx2 = false) ∧
        (is_finite (y1 a') = true → is_finite (y2 a') = true →
         is_finite (y1 g') = true → is_finite (y2 g') = true →
         is_finite h = true → f_gt h (S754_zero false) = true →
           is_nan dy1 = false ∧ is_nan dy2 = false).
Proof.
  intros [T HT]%bbox_transform_is_Some. exists T. split; [done|].
  intros b n a g Ha Hg.
  pose proof (bbox_transform_at2 anchors gt_boxes T b n a g HT Ha Hg) as HTbn.
  cbv zeta in HTbn. do 4 eexists. split; [exact HTbn|].
  assert (∀ w x, f_eq w (S754_zero false) = true →
            is_finite (F32.div (F32.sub (F32.div x w) (S754_zero false))
                         (F32.cast (F64.div (F64.of_Z 1) (F64.of_Z 5))))
            = false) as Hzero.
  { intros w x Hw. unfold F32.div, F32.sub.
    apply tf_div_not_finite; [|by vm_compute].
    apply tf_sub_zero_r_not_finite.
    destruct w as [s|[]| |[]]; try (by cbv in Hw).
    apply tf_div_zero_not_finite. }
  assert (∀ w p q, is_finite p = true → is_finite q = true →
            is_finite w = true → f_gt w (S754_zero false) = true →
            is_subnormal F32.emax w = false →
            is_nan (F32.div (F32.sub (F32.div (F32.sub p q) w) (S754_zero false))
                      (F32.cast (F64.div (F64.of_Z 1) (F64.of_Z 5))))
            = false) as Hpos.
  { intros w p q Hp Hq Hw Hw0 Hsub. unfold F32.div, F32.sub.
    apply tf_div_not_nan; [|by vm_compute..].
    apply tf_sub_zero_r, tf_div_not_nan; [by apply tf_sub_not_nan|done|].
    by apply positive_not_flushed. }
  cbv zeta. split_and!; intros; split;
    first [by apply Hzero | apply Hpos; first [done|apply tf_op_not_subnormal]].
Qed.

Lemma bbox_transform_no_geometry_check_witness :
  ∃ T dx1 dy1 dx2 dy2,
    bbox_transform [bx 0 0 0 10] [[bx 1 1 9 9]] = Some T ∧
    at2 T 0 0 = Some [dx1; dy1; dx2; dy2] ∧
    (is_finite dx1 = false ∧ is_finite dx2 = false) ∧
    (is_nan dy1 = false ∧ is_nan dy2 = false).
Proof.
  destruct (bbox_transform_no_geometry_check [bx 0 0 0 10] [[bx 1 1 9 9]]
              ltac:(repeat constructor)) as (T & HT & Hat).
  destruct (Hat 0 0 (bx 0 0 0 10) (bx 1 1 9 9) eq_refl eq_refl)
    as (dx1 & dy1 & dx2 & dy2 & Hrow & Hw0 & _ & _ & Hh).
  exists T, dx1, dy1, dx2, dy2.
  split; [exact HT|]. split; [exact Hrow|]. split.
  - apply Hw0. by vm_compute.
  - apply Hh; by vm_compute.
Defined.

(** An anchor of width [0] and an anchor of positive width [2^-117] whose
    target overflows: [bbox_transform] returns infinities and raises
    nothing. *)
Lemma bbox_transform_returns_infinities :
  bbox_transform [bx 0 0 0 10] [[bx 1 1 9 9]]
    = Some [[[S754_infinity false; f32 1 2; S754_infinity false; f32 (-1) 2]]] ∧
  bbox_transform [mkBox (F64.of_Z 0) (F64.of_Z 0) (pow2 (-117)) (F64.of_Z 1)]
                 [[mkBox (pow2 123) (F64.of_Z 0) (pow2 123) (F64.of_Z 1)]]
    = Some [[[S754_infinity false; S754_zero false;
              S754_infinity false; S754_zero false]]] ∧
  f_gt (F32.sub (F32.cast (pow2 (-117))) (F32.cast (F64.of_Z 0)))
       (S754_zero false) = true.
Proof. by vm_compute. Qed.

(** ** The matcher *)

Section MatcherClaims.
Variable overlap : Box → Box → float.

(** The box whose area the matcher tests: the degeneracy test of anchor [n]
    of batch entry [b] is made on [anchors[j]], the anchor whose position is
    the arg-max index [j], not on the annotation [j]. *)
Lemma degeneracy_test_reads_anchors anchors annotations neg pos P I idx
    b n gts a :
  compute_gt_annotations overlap anchors annotations neg pos
    = Some (P, I, idx) →
  annotations !! b = Some gts → anchors !! n = Some a →
  ∃ j m gb,
    tf_argmax (overlap_row overlap a gts) = Some j ∧
    tf_reduce_max (overlap_row overlap a gts) = Some m ∧
    anchors !! Z.to_nat j = Some gb ∧
    at2 P b n = Some (f_ge m pos && negb (small_area (box_map F64.cast gb))) ∧
    at2 I b n = Some (f_gt m neg
                      && negb (f_ge m pos
                               && negb (small_area (box_map F64.cast gb)))
                      || small_area (box_map F64.cast gb)).
Proof.
  intros Hc Hgts Ha.
  destruct (compute_gt_annotations_Some _ _ _ _ _ _ _ _ Hc)
    as (argm & _ & _ & _ & _ & Hentry).
  destruct (Hentry b n gts a Hgts Ha)
    as (j & m & gb & _ & Hj & Hm & _ & Hgb & HP & HI).
  by exists j, m, gb.
Qed.

(** The boundary values of the two thresholds, relative to the degeneracy
    test that the code makes: with the gathered box not small, a maximal
    overlap equal to [positive_overlap] is positive, and a maximal overlap
    equal to [negative_overlap] is not ignored. *)
Lemma boundary_values anchors annotations neg pos P I idx b n gts a :
  compute_gt_annotations overlap anchors annotations neg pos
    = Some (P, I, idx) →
  annotations !! b = Some gts → anchors !! n = Some a →
  ∃ j m gb,
    tf_argmax (overlap_row overlap a gts) = Some j ∧
    tf_reduce_max (overlap_row overlap a gts) = Some m ∧
    anchors !! Z.to_nat j = Some gb ∧
    (small_area (box_map F64.cast gb) = false →
       (f_eq m pos = true → at2 P b n = Some true) ∧
       (f_eq m neg = true → at2 I b n = Some false)).
Proof.
  intros Hc Hgts Ha.
  destruct (degeneracy_test_reads_anchors _ _ _ _ _ _ _ _ _ _ _ Hc Hgts Ha)
    as (j & m & gb & Hj & Hm & Hgb & HP & HI).
  exists j, m, gb. split_and!; [done..|].
  intros Hsmall. rewrite Hsmall in HP, HI. split.
  - intros Heq. rewrite HP. unfold f_ge. by rewrite (f_compare_eq _ _ Heq).
  - intros Heq. rewrite HI. unfold f_gt. by rewrite (f_compare_eq _ _ Heq).
Qed.

(** When no anchor has an area below 1, the degeneracy test never fires, and
    the boundary values behave as above for every anchor of every batch
    entry. *)
Lemma boundary_values_large_anchors anchors annotations neg pos P I idx
    b n gts a :
  compute_gt_annotations overlap anchors annotations neg pos
    = Some (P, I, idx) →
  Forall (λ a, small_area (box_map F64.cast a) = false) anchors →
  annotations !! b = Some gts → anchors !! n = Some a →
  ∃ m, tf_reduce_max (overlap_row overlap a gts) = Some m ∧
    at2 P b n = Some (f_ge m pos) ∧
    at2 I b n = Some (f_gt m neg && negb (f_ge m pos)) ∧
    (f_eq m pos = true → at2 P b n = Some true) ∧
    (f_eq m neg = true → at2 I b n = Some false).
Proof.
  intros Hc Hlarge Hgts Ha.
  destruct (degeneracy_test_reads_anchors _ _ _ _ _ _ _ _ _ _ _ Hc Hgts Ha)
    as (j & m & gb & Hj & Hm & Hgb & HP & HI).
  rewrite (Forall_lookup_1 _ _ _ _ Hlarge Hgb) in HP, HI.
  rewrite andb_true_r in HP. rewrite andb_true_r, orb_false_r in HI.
  exists m. split_and!; [done..| |].
  - intros Heq. rewrite HP. unfold f_ge. by rewrite (f_compare_eq _ _ Heq).
  - intros Heq. rewrite HI. unfold f_gt. by rewrite (f_compare_eq _ _ Heq).
Qed.
End MatcherClaims.

(** C2, on a failing input.  With the single anchor [(0, 0, 10, 10)] and the
    single ground-truth box [(0, 0, 0, 0)] of area 0, the matched box is
    degenerate and the anchor is not ignored: the code tests the area of
    [anchors[0]], which is 100.  With the anchors [(0, 0, 10, 10)] and
    [(0, 0, 0.5, 0.5)] and the ground-truth box [(0, 0, 0.5, 0.5)] of area
    0.25, the second anchor is positive. *)
Theorem degenerate_ground_truth_not_detected :
  compute_gt_annotations iou [bx 0 0 10 10] [[bx 0 0 0 0]]
      default_negative_overlap default_positive_overlap
    = Some ([[false]], [[false]], [(0, 0)]%Z) ∧
  small_area (bx 0 0 0 0) = true ∧
  compute_gt_annotations iou [bx 0 0 10 10; bxh 0 0 1 1] [[bxh 0 0 1 1]]
      default_negative_overlap default_positive_overlap
    = Some ([[false; true]], [[false; false]], [(0, 0); (0, 0)]%Z) ∧
  small_area (bxh 0 0 1 1) = true.
Proof. by vm_compute. Qed.

(** C6, on a failing input.  The anchors are [(0, 0, 10, 10)] and the
    zero-area [(5, 5, 5, 5)]; the ground-truth boxes are [(20, 20, 30, 30)]
    and [(0, 0, 10, 5)].  The first anchor has its maximal overlap, exactly
    [positive_overlap = 0.5], with the second ground-truth box, of area 50;
    the code tests the area of [anchors[1]] and makes the anchor ignored, not
    positive. *)
Theorem boundary_anchor_ignored_through_anchor_area :
  let anchors := [bx 0 0 10 10; bx 5 5 5 5] in
  let gts := [bx 20 20 30 30; bx 0 0 10 5] in
  tf_argmax (overlap_row iou (bx 0 0 10 10) gts) = Some 1%Z ∧
  tf_reduce_max (overlap_row iou (bx 0 0 10 10) gts)
    = Some default_positive_overlap ∧
  small_area (bx 0 0 10 5) = false ∧
  compute_gt_annotations iou anchors [gts]
      default_negative_overlap default_positive_overlap
    = Some ([[false; false]], [[true; false]], [(0, 1); (0, 0)]%Z).
Proof. by vm_compute. Qed.

(** C1, on a failing input.  The anchors are [(0, 0, 10, 10)] and
    [(40, 40, 50, 50)], the image is 100 by 100, the one ground-truth box
    [(1, 1, 9, 9)] has label 2 and there are 3 classes.  The second anchor
    overlaps nothing and is background (state [0.0]); its classification row
    is the one-hot vector of class 0, not the zero vector. *)
Theorem background_row_is_one_hot_at_class_0 :
  ∃ R L,
    anchor_targets_bbox iou [bx 0 0 10 10; bx 40 40 50 50]
        (mkShape 1 100 100 3) [[bx 1 1 9 9]] [[2%Z]] 3
        default_padding_value default_negative_overlap default_positive_overlap
      = Some (R, L) ∧
    at2 L 0 1 = Some [F32.of_Z 1; F32.of_Z 0; F32.of_Z 0; F32.of_Z 0] ∧
    at2 L 0 0 = Some [F32.of_Z 0; F32.of_Z 0; F32.of_Z 1; F32.of_Z 1].
Proof. do 2 eexists. split; [by vm_compute|]. by vm_compute. Qed.

(** ** The target encoder *)

Lemma one_hot_length C i : length (one_hot C i) = C.
Proof. unfold one_hot. rewrite length_fmap, length_seqZ. lia. Qed.

(** An index below 0 selects no class. *)
Lemma one_hot_negative C i :
  (i < 0)%Z → map F32.of_Z (one_hot C i) = replicate C (F32.of_Z 0).
Proof.
  intros Hi. apply list_eq. intros k. unfold one_hot.
  rewrite !list_lookup_fmap.
  destruct (decide (k < C)) as [Hk|Hk].
  - rewrite lookup_seqZ_lt, lookup_replicate_2 by lia. simpl.
    by rewrite decide_False by lia.
  - rewrite lookup_seqZ_ge by lia. symmetry. apply lookup_replicate_None. lia.
Qed.

(** An index in range selects its class. *)
Lemma one_hot_in_range C i k :
  (0 ≤ i < Z.of_nat C)%Z → k < C →
  map F32.of_Z (one_hot C i) !! k
  = Some (if decide (i = Z.of_nat k) then F32.of_Z 1 else F32.of_Z 0).
Proof.
  intros Hi Hk. unfold one_hot.
  rewrite !list_lookup_fmap, lookup_seqZ_lt by lia. simpl.
  rewrite Z.add_0_l. by case_decide.
Qed.

Lemma out_mask_lookup anchors images n a :
  anchors !! n = Some a →
  out_mask anchors images !! n
  = Some (f_ge (F64.div (F64.add (x1 a) (x2 a)) (F64.of_Z 2))
               (F64.of_Z (Z.of_nat (width images)))
          || f_ge (F64.div (F64.add (y1 a) (y2 a)) (F64.of_Z 2))
                  (F64.of_Z (Z.of_nat (height images)))).
Proof.
  intros Ha. unfold out_mask.
  by rewrite lookup_zip_with, !list_lookup_fmap, !lookup_zip_with,
    !list_lookup_fmap, Ha.
Qed.

Section EncoderClaims.
Variable overlap : Box → Box → float.

Lemma masks_disjoint_after_match anchors annotations neg pos P I idx b n :
  compute_gt_annotations overlap anchors annotations neg pos
    = Some (P, I, idx) →
  at2 P b n = Some true → at2 I b n = Some false.
Proof.
  intros Hc HP.
  destruct (compute_gt_annotations_Some _ _ _ _ _ _ _ _ Hc)
    as (argm & _ & _ & HPshape & _ & Hentry).
  destruct (shape2_at2_lt _ _ _ _ _ _ HPshape HP) as [Hb Hn].
  destruct (lookup_lt_is_Some_2 annotations b Hb) as [gts Hgts].
  destruct (lookup_lt_is_Some_2 anchors n Hn) as [a Ha].
  destruct (Hentry b n gts a Hgts Ha)
    as (j & m & gb & _ & _ & _ & _ & _ & HP' & HI').
  cbv zeta in HP', HI'. rewrite HP in HP'. rewrite HI'.
  destruct (f_ge m pos), (f_gt m neg), (small_area _); naive_solver.
Qed.

Lemma masks_disjoint_after_padding anchors images bndboxes labels pad
    neg pos P' I' cl idx b n :
  padding_demotion overlap anchors images bndboxes labels pad neg pos
    = Some (P', I', cl, idx) →
  at2 P' b n = Some true → at2 I' b n = Some false.
Proof.
  intros Hp HP'.
  destruct (padding_demotion_Some _ _ _ _ _ _ _ _ _ _ _ _ Hp)
    as (P & I & argm & Hc & _ & _ & _ & _ & _ & _ & _ & _ & _ & HPe & HIe).
  rewrite HPe in HP'. rewrite HIe.
  destruct (at2 P b n) as [p|] eqn:Hpbn; [|done].
  destruct (at2 cl b n) as [l|]; [|by destruct p]. simpl in HP'.
  destruct p; [|done].
  rewrite (masks_disjoint_after_match _ _ _ _ _ _ _ b n Hc Hpbn). simpl.
  by destruct (bool_decide (l = pad)).
Qed.

(** C3, as the code has it: the positive and the ignore mask are disjoint
    after [compute_gt_annotations] and after the padding demotion (a
    positive anchor is not ignored); the out-of-image step adds anchors to
    the ignore mask and removes none from the positive mask, so afterwards
    both can hold of an anchor, but only of one that the out-of-image mask
    flags. *)
Theorem masks_disjoint_until_out_of_image anchors images bndboxes labels
    pad neg pos :
  (∀ P I idx b n,
     compute_gt_annotations overlap anchors bndboxes neg pos
       = Some (P, I, idx) →
     at2 P b n = Some true → at2 I b n = Some false) ∧
  (∀ P' I' cl idx b n,
     padding_demotion overlap anchors images bndboxes labels pad neg pos
       = Some (P', I', cl, idx) →
     at2 P' b n = Some true → at2 I' b n = Some false) ∧
  (∀ Pf If cl idx b n,
     out_of_image_masking overlap anchors images bndboxes labels pad neg pos
       = Some (Pf, If, cl, idx) →
     at2 Pf b n = Some true → at2 If b n = Some true →
     out_mask anchors images !! n = Some true).
Proof.
  split_and!.
  - eauto using masks_disjoint_after_match.
  - eauto using masks_disjoint_after_padding.
  - intros Pf If cl idx b n Ho HPf HIf.
    destruct (out_of_image_masking_Some _ _ _ _ _ _ _ _ _ _ _ _ Ho)
      as (I' & Hp & _ & HIe).
    rewrite HIe in HIf.
    rewrite (masks_disjoint_after_padding _ _ _ _ _ _ _ _ _ _ _ b n Hp HPf)
      in HIf.
    simpl in HIf. by destruct (out_mask anchors images !! n) as [[]|].
Qed.

(** Every entry of the outputs, from the final masks and the gathered
    label. *)
Lemma anchor_targets_bbox_entry anchors images bndboxes labels C pad neg pos
    R L b n :
  anchor_targets_bbox overlap anchors images bndboxes labels C pad neg pos
    = Some (R, L) →
  b < length bndboxes → n < length anchors →
  ∃ Pf If cl idx I' p i l reg,
    out_of_image_masking overlap anchors images bndboxes labels pad neg pos
      = Some (Pf, If, cl, idx) ∧
    padding_demotion overlap anchors images bndboxes labels pad neg pos
      = Some (Pf, I', cl, idx) ∧
    at2 Pf b n = Some p ∧ at2 If b n = Some i ∧ at2 cl b n = Some l ∧
    length reg = 4 ∧
    at2 R b n = Some (reg ++ [anchor_state p i]) ∧
    at2 L b n = Some (map F32.of_Z (one_hot C (class_index p i l))
                      ++ [anchor_state p i]).
Proof.
  intros Ha Hb Hn.
  destruct (anchor_targets_bbox_Some _ _ _ _ _ _ _ _ _ _ _ Ha)
    as (Pf & If & cl & idx & Ho & HPf & HIf & Hcl & _ & _ & Hentry).
  destruct (out_of_image_masking_Some _ _ _ _ _ _ _ _ _ _ _ _ Ho)
    as (I' & Hp & _).
  destruct (shape2_at2_is_Some _ _ Pf b n HPf Hb Hn) as [p Hpbn].
  destruct (shape2_at2_is_Some _ _ If b n HIf Hb Hn) as [i Hibn].
  destruct (shape2_at2_is_Some _ _ cl b n Hcl Hb Hn) as [l Hlbn].
  destruct (Hentry b n p i l Hpbn Hibn Hlbn) as (reg & ? & ? & ?).
  by exists Pf, If, cl, idx, I', p, i, l, reg.
Qed.

Lemma anchor_targets_bbox_shape anchors images bndboxes labels C pad neg pos
    R L :
  anchor_targets_bbox overlap anchors images bndboxes labels C pad neg pos
    = Some (R, L) →
  shape2 (length bndboxes) (length anchors) R ∧
  shape2 (length bndboxes) (length anchors) L.
Proof.
  intros Ha.
  by destruct (anchor_targets_bbox_Some _ _ _ _ _ _ _ _ _ _ _ Ha)
    as (Pf & If & cl & idx & _ & _ & _ & _ & ? & ? & _).
Qed.

(** C4, as the code has it: an anchor whose centre, computed in float64 as
    [((x1 + x2) / 2, (y1 + y2) / 2)], has [cx ≥ W] or [cy ≥ H] carries the
    state Ignore ([−1]) in both outputs, whatever its overlaps; no lower
    bound of the centre is tested. *)
Theorem out_of_image_anchor_is_ignored anchors images bndboxes labels C
    pad neg pos R L b n a :
  anchor_targets_bbox overlap anchors images bndboxes labels C pad neg pos
    = Some (R, L) →
  b < length bndboxes → anchors !! n = Some a →
  f_ge (F64.div (F64.add (x1 a) (x2 a)) (F64.of_Z 2))
       (F64.of_Z (Z.of_nat (width images))) = true
  ∨ f_ge (F64.div (F64.add (y1 a) (y2 a)) (F64.of_Z 2))
         (F64.of_Z (Z.of_nat (height images))) = true →
  has_state R L b n (F32.of_Z (-1)).
Proof.
  intros Ha Hb Han Hout.
  assert (n < length anchors) as Hn by (by eapply lookup_lt_Some).
  destruct (anchor_targets_bbox_entry _ _ _ _ _ _ _ _ _ _ b n Ha Hb Hn)
    as (Pf & If & cl & idx & I' & p & i & l & reg
        & Ho & Hp & Hpbn & Hibn & Hlbn & Hreg & HR & HL).
  destruct (out_of_image_masking_Some _ _ _ _ _ _ _ _ _ _ _ _ Ho)
    as (I'' & Hp' & _ & HIe).
  rewrite HIe, (out_mask_lookup _ _ _ _ Han) in Hibn.
  destruct (at2 I'' b n) as [i'|]; [|done]. simpl in Hibn.
  assert (i = true) as ->.
  { injection Hibn as <-. destruct Hout as [-> | ->];
      by rewrite ?orb_true_r, ?orb_true_l. }
  by exists reg, (map F32.of_Z (one_hot C (class_index p true l))).
Qed.

(** C7: an anchor whose gathered label is [padding_value] is removed from
    the positive mask and added to the ignore mask, and its state is
    Ignore ([−1]), which is not Foreground ([1]); hence, in a batch entry
    whose labels are all [padding_value], every anchor has the state
    Ignore and none the state Foreground. *)
Theorem padding_matches_are_never_foreground anchors images bndboxes labels
    C pad neg pos R L P' I' cl idx :
  anchor_targets_bbox overlap anchors images bndboxes labels C pad neg pos
    = Some (R, L) →
  padding_demotion overlap anchors images bndboxes labels pad neg pos
    = Some (P', I', cl, idx) →
  F32.of_Z (-1) ≠ F32.of_Z 1 ∧
  (∀ b n, at2 cl b n = Some pad →
     at2 P' b n = Some false ∧ at2 I' b n = Some true ∧
     has_state R L b n (F32.of_Z (-1))) ∧
  (∀ b row, b < length bndboxes →
     labels !! b = Some row → Forall (λ l, l = pad) row →
     ∀ n, n < length anchors →
       at2 cl b n = Some pad ∧ has_state R L b n (F32.of_Z (-1))).
Proof.
  intros Ha Hp. split; [by vm_compute|].
  destruct (padding_demotion_Some _ _ _ _ _ _ _ _ _ _ _ _ Hp)
    as (P & I & argm & Hc & HB & Hargm & -> & HP & HI & Hcl & HP'
        & HI' & Hlab & HPe & HIe).
  assert (∀ b n, at2 cl b n = Some pad →
     at2 P' b n = Some false ∧ at2 I' b n = Some true ∧
     has_state R L b n (F32.of_Z (-1))) as Hfirst.
  { intros b n Hl.
    destruct (shape2_at2_lt _ _ _ _ _ _ Hcl Hl) as [Hb Hn].
    destruct (shape2_at2_is_Some _ _ P b n HP Hb Hn) as [p Hpbn].
    destruct (shape2_at2_is_Some _ _ I b n HI Hb Hn) as [i Hibn].
    pose proof (HPe b n) as HP'bn. pose proof (HIe b n) as HI'bn.
    rewrite Hpbn, Hl in HP'bn. rewrite Hibn, Hl in HI'bn.
    simpl in HP'bn, HI'bn. rewrite bool_decide_eq_true_2 in HP'bn, HI'bn by done.
    rewrite andb_false_r in HP'bn. rewrite orb_true_r in HI'bn.
    split_and!; [done..|].
    destruct (anchor_targets_bbox_entry _ _ _ _ _ _ _ _ _ _ b n Ha Hb Hn)
      as (Pf & If & cl' & idx' & I'' & p' & i' & l' & reg
          & Ho & Hp2 & Hpfbn & Hifbn & Hlbn & Hreg & HR & HL).
    rewrite Hp in Hp2. injection Hp2 as <- <- <- <-.
    destruct (out_of_image_masking_Some _ _ _ _ _ _ _ _ _ _ _ _ Ho)
      as (I3 & Hp3 & _ & HIfe).
    rewrite Hp in Hp3. injection Hp3 as <-.
    rewrite HIfe, HI'bn in Hifbn. simpl in Hifbn.
    assert (n < length (out_mask anchors images)) as Hn'.
    { unfold out_mask.
      rewrite length_zip_with, !length_fmap, !length_zip_with, !length_fmap.
      lia. }
    destruct (lookup_lt_is_Some_2 _ _ Hn') as [o Ho'].
    rewrite Ho' in Hifbn. injection Hifbn as <-.
    by exists reg, (map F32.of_Z (one_hot C (class_index p' true l'))). }
  split; [exact Hfirst|].
  intros b row Hb Hrow Hall n Hn.
  destruct (shape2_at2_is_Some _ _ argm b n Hargm Hb Hn) as [j Hj].
  destruct (Hlab b n j Hj) as (_ & l & Hl & Hlj).
  assert (l = pad) as ->.
  { unfold at2 in Hlj. rewrite Hrow in Hlj. simpl in Hlj.
    by eapply (Forall_lookup_1 _ _ _ _ Hall Hlj). }
  split; [done|]. by apply Hfirst.
Qed.

(** C10: where the final ignore mask holds of an anchor, whatever the
    positive mask says of it, the state is [−1] in both outputs and the
    first [num_classes] entries of its classification row are zero; and the
    trailing columns of the two outputs agree on every anchor. *)
Theorem ignore_dominates anchors images bndboxes labels C pad neg pos
    R L Pf If cl idx :
  anchor_targets_bbox overlap anchors images bndboxes labels C pad neg pos
    = Some (R, L) →
  out_of_image_masking overlap anchors images bndboxes labels pad neg pos
    = Some (Pf, If, cl, idx) →
  (∀ b n, at2 If b n = Some true →
     ∃ reg, length reg = 4 ∧
       at2 R b n = Some (reg ++ [F32.of_Z (-1)]) ∧
       at2 L b n = Some (replicate C (F32.of_Z 0) ++ [F32.of_Z (-1)])) ∧
  (∀ b n rrow lrow,
     at2 R b n = Some rrow → at2 L b n = Some lrow →
     ∃ s reg cls, length reg = 4 ∧ length cls = C ∧
       rrow = reg ++ [s] ∧ lrow = cls ++ [s]).
Proof.
  intros Ha Ho.
  destruct (anchor_targets_bbox_Some _ _ _ _ _ _ _ _ _ _ _ Ha)
    as (Pf' & If' & cl' & idx' & Ho' & HPf & HIf & Hcl & HR & _ & Hentry).
  rewrite Ho in Ho'. injection Ho' as <- <- <- <-. split.
  - intros b n Hibn.
    destruct (shape2_at2_lt _ _ _ _ _ _ HIf Hibn) as [Hb Hn].
    destruct (shape2_at2_is_Some _ _ Pf b n HPf Hb Hn) as [p Hpbn].
    destruct (shape2_at2_is_Some _ _ cl b n Hcl Hb Hn) as [l Hlbn].
    destruct (Hentry b n p true l Hpbn Hibn Hlbn) as (reg & Hreg & HRbn & HLbn).
    exists reg. split_and!; [done..|].
    rewrite HLbn. unfold class_index. simpl.
    by rewrite one_hot_negative by lia.
  - intros b n rrow lrow HRbn HLbn.
    destruct (shape2_at2_lt _ _ _ _ _ _ HR HRbn) as [Hb Hn].
    destruct (shape2_at2_is_Some _ _ Pf b n HPf Hb Hn) as [p Hpbn].
    destruct (shape2_at2_is_Some _ _ If b n HIf Hb Hn) as [i Hibn].
    destruct (shape2_at2_is_Some _ _ cl b n Hcl Hb Hn) as [l Hlbn].
    destruct (Hentry b n p i l Hpbn Hibn Hlbn) as (reg & Hreg & HRbn' & HLbn').
    rewrite HRbn in HRbn'. rewrite HLbn in HLbn'.
    injection HRbn' as ->. injection HLbn' as ->.
    exists (anchor_state p i), reg, (map F32.of_Z (one_hot C (class_index p i l))).
    by rewrite length_fmap, one_hot_length.
Qed.

(** The classification row in the three states: an anchor that is neither
    positive nor ignored carries the state [0] and the one-hot row of
    class 0; an ignored anchor carries a row of zeros; a positive anchor that
    is not ignored carries the one-hot row of its gathered label. *)
Lemma classification_rows anchors images bndboxes labels C pad neg pos
    R L Pf If cl idx b n p i l :
  anchor_targets_bbox overlap anchors images bndboxes labels C pad neg pos
    = Some (R, L) →
  out_of_image_masking overlap anchors images bndboxes labels pad neg pos
    = Some (Pf, If, cl, idx) →
  at2 Pf b n = Some p → at2 If b n = Some i → at2 cl b n = Some l →
  ∃ row, at2 L b n = Some (row ++ [anchor_state p i]) ∧ length row = C ∧
    (i = true → row = replicate C (F32.of_Z 0)) ∧
    (i = false → p = false → row = map F32.of_Z (one_hot C 0)) ∧
    (i = false → p = true → row = map F32.of_Z (one_hot C l)).
Proof.
  intros Ha Ho Hpbn Hibn Hlbn.
  destruct (anchor_targets_bbox_Some _ _ _ _ _ _ _ _ _ _ _ Ha)
    as (Pf' & If' & cl' & idx' & Ho' & _ & _ & _ & _ & _ & Hentry).
  rewrite Ho in Ho'. injection Ho' as <- <- <- <-.
  destruct (Hentry b n p i l Hpbn Hibn Hlbn) as (reg & _ & _ & HLbn).
  eexists. split; [exact HLbn|].
  rewrite length_fmap, one_hot_length. split_and!; [done|..].
  - intros ->. unfold class_index. simpl. by rewrite one_hot_negative by lia.
  - by intros -> ->.
  - by intros -> ->.
Qed.
End EncoderClaims.

(** ** The anchor generator *)

Module AnchorGeneratorProps.
Import AnchorGenerator.

Lemma np_tile_length {A} (v : list A) reps :
  length (np_tile v reps) = reps * length v.
Proof.
  unfold np_tile. by rewrite length_join, fmap_replicate, sum_list_replicate.
Qed.

Lemma np_repeat_length {A} (v : list A) k :
  length (np_repeat v k) = length v * k.
Proof.
  unfold np_repeat. induction v as [|x v IH]; [done|].
  csimpl. rewrite length_app, length_replicate, IH. lia.
Qed.

(** [_generate] makes [len(self)] canonical anchors. *)
Lemma _generate_length size aspect_ratios anchor_scales :
  length (_generate size aspect_ratios anchor_scales)
  = length aspect_ratios * length anchor_scales.
Proof.
  unfold _generate.
  rewrite !length_zip_with, !length_fmap, np_tile_length, np_repeat_length.
  lia.
Qed.

Lemma __init__length size aspect_ratios stride :
  length (anchors (__init__ size aspect_ratios stride))
  = __len__ (__init__ size aspect_ratios stride)
  ∧ __len__ (__init__ size aspect_ratios stride) = length aspect_ratios * 3.
Proof. unfold __len__. simpl. by rewrite _generate_length. Qed.


Lemma shifts_length stride h w :
  let shift_x := map (λ v, F32.mul (F32.add v half32) (F32.of_Z stride))
                     (arange w) in
  let shift_y := map (λ v, F32.mul (F32.add v half32) (F32.of_Z stride))
                     (arange h) in
  length (zip_with (λ sx sy, mkBox sx sy sx sy)
            (mjoin (replicate h shift_x)) (mjoin (map (replicate w) shift_y)))
  = h * w.
Proof.
  intros shift_x shift_y.
  rewrite length_zip_with, !length_join, fmap_replicate, sum_list_replicate.
  rewrite (sum_list_fmap_same w).
  - subst shift_x shift_y. unfold arange.
    rewrite !length_fmap, !length_seq. lia.
  - rewrite Forall_fmap. apply Forall_forall. intros y _. simpl.
    by rewrite length_replicate.
Qed.


End AnchorGeneratorProps.

(** ** The properties on concrete inputs *)

(** An anchor with overlap 1 whose centre [(5, 5)] is outside a 4 by 4
    image: positive after the matcher and after the padding demotion, in both
    masks after the out-of-image step. *)
Lemma masks_disjoint_until_out_of_image_witness :
  at2 [[false]] 0 0 = Some false ∧
  out_mask [bx 0 0 10 10] (mkShape 1 4 4 3) !! 0 = Some true.
Proof.
  destruct (masks_disjoint_until_out_of_image iou
              [bx 0 0 10 10] (mkShape 1 4 4 3) [[bx 0 0 10 10]] [[0%Z]]
              default_padding_value
              default_negative_overlap default_positive_overlap)
    as (H1 & H2 & H3).
  split.
  - exact (H1 [[true]] [[false]] [(0, 0)%Z] 0 0
             ltac:(vm_compute; reflexivity) eq_refl).
  - exact (H3 [[true]] [[true]] [[0%Z]] [(0, 0)%Z] 0 0
             ltac:(vm_compute; reflexivity) eq_refl eq_refl).
Defined.

(** On that input both masks hold of the anchor after the out-of-image
    step. *)
Lemma masks_overlap_after_out_of_image :
  out_of_image_masking iou [bx 0 0 10 10] (mkShape 1 4 4 3)
      [[bx 0 0 10 10]] [[0%Z]] default_padding_value
      default_negative_overlap default_positive_overlap
    = Some ([[true]], [[true]], [[0%Z]], [(0, 0)%Z]).
Proof. by vm_compute. Qed.

Lemma out_of_image_anchor_is_ignored_witness :
  has_state [[[F32.of_Z 0; F32.of_Z 0; F32.of_Z 0; F32.of_Z 0; F32.of_Z (-1)]]]
            [[[F32.of_Z 0; F32.of_Z 0; F32.of_Z (-1)]]]
            0 0 (F32.of_Z (-1)).
Proof.
  apply (out_of_image_anchor_is_ignored iou
           [bx 0 0 10 10] (mkShape 1 4 4 3) [[bx 0 0 10 10]] [[0%Z]] 2
           default_padding_value
           default_negative_overlap default_positive_overlap
           _ _ 0 0 (bx 0 0 10 10)).
  - by vm_compute.
  - simpl. lia.
  - reflexivity.
  - left. by vm_compute.
Defined.

(** The anchor [(−30, −30, 10, 10)] has its centre at [(−10, −10)], outside
    the image, and overlap 1 with the ground-truth box; its state is
    Foreground ([1]) in both outputs. *)
Lemma centre_below_zero_is_foreground :
  F64.div (F64.add (F64.of_Z (-30)) (F64.of_Z 10)) (F64.of_Z 2)
    = F64.of_Z (-10) ∧
  anchor_targets_bbox iou [bx (-30) (-30) 10 10] (mkShape 1 100 100 3)
      [[bx (-30) (-30) 10 10]] [[0%Z]] 2 default_padding_value
      default_negative_overlap default_positive_overlap
    = Some ([[[F32.of_Z 0; F32.of_Z 0; F32.of_Z 0; F32.of_Z 0; F32.of_Z 1]]],
            [[[F32.of_Z 1; F32.of_Z 0; F32.of_Z 1]]]).
Proof. by vm_compute. Qed.

(** One anchor with overlap 1 with the only ground-truth box, which is a
    padding slot. *)
Lemma padding_matches_are_never_foreground_witness :
  at2 [[false]] 0 0 = Some false ∧ at2 [[true]] 0 0 = Some true ∧
  has_state [[[F32.of_Z 0; F32.of_Z 0; F32.of_Z 0; F32.of_Z 0; F32.of_Z (-1)]]]
            [[[F32.of_Z 0; F32.of_Z 0; F32.of_Z (-1)]]]
            0 0 (F32.of_Z (-1)).
Proof.
  destruct (padding_matches_are_never_foreground iou
              [bx 0 0 10 10] (mkShape 1 100 100 3) [[bx 0 0 10 10]]
              [[(-1)%Z]] 2 default_padding_value
              default_negative_overlap default_positive_overlap
              [[[F32.of_Z 0; F32.of_Z 0; F32.of_Z 0; F32.of_Z 0; F32.of_Z (-1)]]]
              [[[F32.of_Z 0; F32.of_Z 0; F32.of_Z (-1)]]]
              [[false]] [[true]] [[(-1)%Z]] [(0, 0)%Z]
              ltac:(vm_compute; reflexivity) ltac:(vm_compute; reflexivity))
    as (_ & H1 & H2).
  destruct (H2 0 [(-1)%Z] ltac:(simpl; lia) eq_refl
              ltac:(repeat constructor) 0 ltac:(simpl; lia)) as [Hcl _].
  exact (H1 0 0 Hcl).
Defined.

(** A positive anchor caught by the out-of-image mask. *)
Lemma ignore_dominates_witness :
  ∃ reg, length reg = 4 ∧
    at2 [[[F32.of_Z 0; F32.of_Z 0; F32.of_Z 0; F32.of_Z 0; F32.of_Z (-1)]]] 0 0
      = Some (reg ++ [F32.of_Z (-1)]) ∧
    at2 [[[F32.of_Z 0; F32.of_Z 0; F32.of_Z (-1)]]] 0 0
      = Some (replicate 2 (F32.of_Z 0) ++ [F32.of_Z (-1)]).
Proof.
  destruct (ignore_dominates iou
              [bx 0 0 10 10] (mkShape 1 4 4 3) [[bx 0 0 10 10]] [[0%Z]] 2
              default_padding_value
              default_negative_overlap default_positive_overlap
              [[[F32.of_Z 0; F32.of_Z 0; F32.of_Z 0; F32.of_Z 0; F32.of_Z (-1)]]]
              [[[F32.of_Z 0; F32.of_Z 0; F32.of_Z (-1)]]]
              [[true]] [[true]] [[0%Z]] [(0, 0)%Z]
              ltac:(vm_compute; reflexivity) ltac:(vm_compute; reflexivity))
    as [H1 _].
  exact (H1 0 0 eq_refl).
Defined.

(** * Further properties of the code *)

(** ** The order of the comparisons *)

(** [SFcompare] orders the keys of its arguments, and is undefined exactly
    when one of them is NaN. *)
Lemma SFcompare_key x y :
  match SFcompare x y with
  | None => sf_key x = None ∨ sf_key y = None
  | Some c => ∃ kx ky, sf_key x = Some kx ∧ sf_key y = Some ky ∧
      match c with
      | Lt => key_lt kx ky
      | Eq => kx = ky
      | Gt => key_lt ky kx
      end
  end.
Proof.
  destruct x as [[]|[]| |[] mx ex], y as [[]|[]| |[] my ey]; simpl;
    try (by auto);
    try (do 2 eexists; (split; [reflexivity|]); (split; [reflexivity|]);
         unfold key_lt; simpl; (done || lia)).
  - destruct (Z.compare_spec ex ey);
      do 2 eexists; (split; [reflexivity|]); (split; [reflexivity|]);
      unfold key_lt; simpl; try lia.
    change (Pos.compare_cont Eq mx my) with (mx ?= my)%positive.
    destruct (Pos.compare_spec mx my); simpl; subst; (done || lia).
  - destruct (Z.compare_spec ex ey);
      do 2 eexists; (split; [reflexivity|]); (split; [reflexivity|]);
      unfold key_lt; simpl; try lia.
    change (Pos.compare_cont Eq mx my) with (mx ?= my)%positive.
    destruct (Pos.compare_spec mx my); simpl; subst; (done || lia).
Qed.

(** [>] is the strict order of the keys. *)
Lemma f_gt_key x y :
  f_gt x y = true ↔
  ∃ kx ky, f_key x = Some kx ∧ f_key y = Some ky ∧ key_lt ky kx.
Proof.
  unfold f_gt, f_compare, f_key.
  pose proof (SFcompare_key (flush F64.emax x) (flush F64.emax y)) as H.
  destruct (SFcompare _ _) as [[]|].
  - destruct H as (kx & ky & Hx & Hy & ->). split; [done|].
    intros (kx' & ky' & Hx' & Hy' & Hlt). simplify_eq.
    unfold key_lt in Hlt. lia.
  - destruct H as (kx & ky & Hx & Hy & Hlt). split; [done|].
    intros (kx' & ky' & Hx' & Hy' & Hlt'). simplify_eq.
    unfold key_lt in *. lia.
  - destruct H as (kx & ky & Hx & Hy & Hlt). split; [eauto 6|done].
  - split; [done|]. intros (kx' & ky' & Hx' & Hy' & Hlt').
    destruct H; congruence.
Qed.

(** [>=] is the order of the keys. *)
Lemma f_ge_key x y :
  f_ge x y = true ↔
  ∃ kx ky, f_key x = Some kx ∧ f_key y = Some ky ∧ ¬ key_lt kx ky.
Proof.
  unfold f_ge, f_compare, f_key.
  pose proof (SFcompare_key (flush F64.emax x) (flush F64.emax y)) as H.
  destruct (SFcompare _ _) as [[]|].
  - destruct H as (kx & ky & Hx & Hy & ->). split; [|done].
    intros _. exists ky, ky. split_and!; [done..|]. unfold key_lt. lia.
  - destruct H as (kx & ky & Hx & Hy & Hlt). split; [done|].
    intros (kx' & ky' & Hx' & Hy' & Hlt'). simplify_eq. done.
  - destruct H as (kx & ky & Hx & Hy & Hlt). split; [|done].
    intros _. exists kx, ky. split_and!; [done..|]. unfold key_lt in *. lia.
  - split; [done|]. intros (kx' & ky' & Hx' & Hy' & Hlt').
    destruct H; congruence.
Qed.

(** Every number has a key, and NaN has none. *)
Lemma f_key_is_Some x : is_nan x = false ↔ is_Some (f_key x).
Proof.
  unfold f_key. rewrite <- (flush_is_nan F64.emax x).
  destruct (flush F64.emax x) as [|[]| |[]]; simpl; split; intros H;
    try done; try (by eexists); by destruct H.
Qed.

(** [>], [>=] and the keys of two numbers. *)
Lemma f_gt_false_key x y kx ky :
  f_key x = Some kx → f_key y = Some ky →
  f_gt x y = false ↔ ¬ key_lt ky kx.
Proof.
  intros Hx Hy. rewrite <- not_true_iff_false, f_gt_key. split.
  - intros Hn Hlt. apply Hn. by exists kx, ky.
  - intros Hn (kx' & ky' & Hx' & Hy' & Hlt). by simplify_eq.
Qed.

Lemma f_gt_true_key x y kx ky :
  f_key x = Some kx → f_key y = Some ky →
  f_gt x y = true ↔ key_lt ky kx.
Proof.
  intros Hx Hy. rewrite f_gt_key. split.
  - intros (kx' & ky' & Hx' & Hy' & Hlt). by simplify_eq.
  - intros Hlt. by exists kx, ky.
Qed.

(** [>] is asymmetric and irreflexive. *)
Lemma f_gt_asym x y : f_gt x y = true → f_gt y x = false.
Proof.
  intros (kx & ky & Hx & Hy & Hlt)%f_gt_key. apply not_true_iff_false.
  intros (ky' & kx' & Hy' & Hx' & Hlt')%f_gt_key. simplify_eq.
  unfold key_lt in *. lia.
Qed.

Lemma f_gt_irrefl x : f_gt x x = false.
Proof.
  destruct (f_gt x x) eqn:H; [|done]. by rewrite (f_gt_asym _ _ H) in H.
Qed.

(** A number that is at least zero is above the lowest finite number. *)
Lemma f_ge_zero_gt_lowest v :
  f_ge v (F64.of_Z 0) = true → f_gt v lowest = true.
Proof.
  intros (kv & k0 & Hv & H0 & Hle)%f_ge_key.
  apply f_gt_key. exists kv, ((-1)%Z, (-971)%Z, Z.neg 9007199254740991).
  split_and!; [done|done|].
  vm_compute in H0. injection H0 as <-. unfold key_lt in *. simpl in *. lia.
Qed.

(** ** The arg-max and the maximum of a row *)

(** The running maximum of [tf_reduce_max] over numbers: it is the start
    value or an entry, and neither the start value nor an entry is
    greater. *)
Lemma reduce_max_fold (l : list float) (m0 : float) :
  Forall (λ v, is_nan v = false) l → is_nan m0 = false →
  let m := foldl (λ m v, if f_gt v m then v else m) m0 l in
  is_nan m = false ∧ (m = m0 ∨ m ∈ l) ∧ f_gt m0 m = false ∧
  ∀ v, v ∈ l → f_gt v m = false.
Proof.
  revert m0. induction l as [|v l IH]; intros m0 Hl Hm0; simpl.
  { split_and!; [done|by left|apply f_gt_irrefl|]. by intros v ?%elem_of_nil. }
  inversion Hl as [|? ? Hv Hl']; subst.
  destruct (f_gt v m0) eqn:Hgt.
  - destruct (IH v Hl' Hv) as (Hn & Hin & Hvm & Hall).
    split_and!; [done| | |].
    + right. destruct Hin as [->|Hin]; [by left|by right].
    + apply f_key_is_Some in Hn as [km Hkm].
      apply f_key_is_Some in Hv as [kv Hkv].
      apply f_key_is_Some in Hm0 as [k0 Hk0].
      rewrite (f_gt_false_key _ _ _ _ Hkv Hkm) in Hvm.
      rewrite (f_gt_true_key _ _ _ _ Hkv Hk0) in Hgt.
      apply (f_gt_false_key _ _ _ _ Hk0 Hkm). unfold key_lt in *. lia.
    + intros u [->|Hu]%elem_of_cons; auto.
  - destruct (IH m0 Hl' Hm0) as (Hn & Hin & Hvm & Hall).
    split_and!; [done| |done|].
    + destruct Hin as [->|Hin]; [by left|right; by right].
    + intros u [->|Hu]%elem_of_cons; [|by auto].
      apply f_key_is_Some in Hn as [km Hkm].
      apply f_key_is_Some in Hv as [kv Hkv].
      apply f_key_is_Some in Hm0 as [k0 Hk0].
      rewrite (f_gt_false_key _ _ _ _ Hk0 Hkm) in Hvm.
      rewrite (f_gt_false_key _ _ _ _ Hkv Hk0) in Hgt.
      apply (f_gt_false_key _ _ _ _ Hkv Hkm). unfold key_lt in *. lia.
Qed.

Lemma existsb_is_nan_false row :
  Forall (λ v, is_nan v = false) row → existsb is_nan row = false.
Proof. induction 1 as [|v l Hv _ IH]; [done|]. simpl. by rewrite Hv, IH. Qed.

(** On a row of numbers that are not all [-inf], the maximum is an entry
    and no entry is greater. *)
Lemma tf_reduce_max_spec row m :
  Forall (λ v, f_gt v lowest = true) row → row ≠ [] →
  tf_reduce_max row = Some m →
  m ∈ row ∧ ∀ v, v ∈ row → f_gt v m = false.
Proof.
  intros Hrow Hne. unfold tf_reduce_max.
  assert (Forall (λ v, is_nan v = false) row) as Hnan.
  { eapply Forall_impl; [|exact Hrow]. intros v Hv. simpl in *.
    apply f_gt_key in Hv as (kv & _ & Hkv & _). apply f_key_is_Some. eauto. }
  rewrite (existsb_is_nan_false row Hnan). intros [= <-].
  destruct (reduce_max_fold row (S754_infinity true) Hnan eq_refl)
    as (_ & Hin & _ & Hall).
  split; [|done]. destruct Hin as [Heq|Hin]; [|done]. exfalso.
  destruct row as [|v row]; [done|].
  inversion Hrow as [|? ? Hv _]; subst.
  specialize (Hall v ltac:(by left)). rewrite Heq in Hall.
  apply f_gt_key in Hv as (kv & kl & Hkv & Hkl & Hlt).
  vm_compute in Hkl. injection Hkl as <-.
  rewrite (f_gt_false_key v (S754_infinity true) kv ((-2)%Z, 0%Z, 0%Z)
             Hkv eq_refl) in Hall.
  unfold key_lt in *. simpl in *. lia.
Qed.

(** The kernel keeps its state along a row of numbers. *)
Lemma argmax_fold (pre tl : list float) (acc : Z * float) :
  Forall (λ v, is_nan v = false) (pre ++ tl) →
  argmax_state pre acc →
  argmax_state (pre ++ tl)
    (foldl (λ (acc : Z * float) (iv : Z * float),
              if f_gt iv.2 acc.2 then iv else acc)
           acc (zip (seqZ (Z.of_nat (length pre)) (Z.of_nat (length tl))) tl)).
Proof.
  revert pre acc. induction tl as [|v tl IH]; intros pre acc Hnan Hacc.
  { by rewrite app_nil_r. }
  rewrite seqZ_cons by (simpl; lia).
  replace (Z.pred (Z.of_nat (length (v :: tl)))) with (Z.of_nat (length tl))
    by (simpl; lia).
  simpl.
  replace (Z.succ (Z.of_nat (length pre))) with (Z.of_nat (length (pre ++ [v])))
    by (rewrite length_app; simpl; lia).
  replace (pre ++ v :: tl) with ((pre ++ [v]) ++ tl) in *
    by (by rewrite <- app_assoc).
  apply IH; [done|].
  assert (∀ k u, (pre ++ [v]) !! k = Some u → is_Some (f_key u)) as Hkey.
  { intros k u Hu. apply f_key_is_Some.
    rewrite Forall_lookup in Hnan. apply (Hnan k u).
    rewrite lookup_app_l; [done|]. by eapply lookup_lt_Some. }
  destruct (Hkey (length pre) v) as [kv Hkv].
  { by rewrite lookup_app_r, Nat.sub_diag by lia. }
  destruct (f_gt v acc.2) eqn:Hgt.
  - (* the kernel moves to [v] *)
    right. simpl. rewrite Nat2Z.id.
    split; [lia|]. split; [by rewrite lookup_app_r, Nat.sub_diag by lia|].
    assert (is_Some (f_key acc.2)) as [ka Hka].
    { apply f_gt_key in Hgt as (? & ka & _ & Hka & _). eauto. }
    pose proof (proj1 (f_gt_true_key _ _ _ _ Hkv Hka) Hgt) as Hlt.
    assert (∀ k u, pre !! k = Some u → f_gt v u = true) as Hbelow.
    { intros k u Hu.
      destruct (Hkey k u) as [ku Hku].
      { rewrite lookup_app_l; [done|]. by eapply lookup_lt_Some. }
      apply (f_gt_true_key _ _ _ _ Hkv Hku).
      destruct Hacc as [[-> Hlow]|(_ & _ & Hmax & _)].
      - specialize (Hlow u ltac:(by eapply list_elem_of_lookup_2)).
        simpl in Hka.
        rewrite (f_gt_false_key _ _ _ _ Hku Hka) in Hlow.
        unfold key_lt in *. lia.
      - specialize (Hmax k u Hu).
        rewrite (f_gt_false_key _ _ _ _ Hku Hka) in Hmax.
        unfold key_lt in *. lia. }
    split.
    + intros k u [Hu|[_ Hu]]%lookup_app_Some.
      * apply f_gt_asym. by eapply Hbelow.
      * apply list_lookup_singleton_Some in Hu as [_ <-]. apply f_gt_irrefl.
    + intros k u Hk Hu. rewrite lookup_app_l in Hu by done.
      by eapply Hbelow.
  - (* the kernel stays *)
    destruct Hacc as [[-> Hlow]|(Hj0 & Hj & Hmax & Hfirst)].
    + left. split; [done|]. intros u [Hu| ->%list_elem_of_singleton]%elem_of_app;
        [by auto|done].
    + right.
      assert (Z.to_nat acc.1 < length pre) by (by eapply lookup_lt_Some).
      split; [done|]. split; [by rewrite lookup_app_l|]. split.
      * intros k u [Hu|[_ Hu]]%lookup_app_Some; [by eauto|].
        by apply list_lookup_singleton_Some in Hu as [_ <-].
      * intros k u Hk Hu. apply (Hfirst k u Hk).
        rewrite lookup_app_l in Hu; [done|]. lia.
Qed.

(** On a row of numbers above the lowest finite number, the arg-max index
    is the first position of a greatest entry. *)
Lemma tf_argmax_spec row j :
  Forall (λ v, f_gt v lowest = true) row →
  tf_argmax row = Some j →
  ∃ m, row !! Z.to_nat j = Some m ∧
    (∀ k v, row !! k = Some v → f_gt v m = false) ∧
    (∀ k v, k < Z.to_nat j → row !! k = Some v → f_gt m v = true).
Proof.
  intros Hrow Hj.
  assert (Forall (λ v, is_nan v = false) row) as Hnan.
  { eapply Forall_impl; [|exact Hrow]. intros v Hv. simpl in *.
    apply f_gt_key in Hv as (kv & _ & Hkv & _). apply f_key_is_Some. eauto. }
  destruct row as [|v0 tl]; [done|]. unfold tf_argmax in Hj.
  injection Hj as Hj.
  pose proof (argmax_fold [] (v0 :: tl) (0%Z, lowest) Hnan) as Hfold.
  simpl app in Hfold. change (Z.of_nat (length [])) with 0%Z in Hfold.
  destruct Hfold as [[Heq Hlow]|(Hj0 & Hm & Hmax & Hfirst)].
  { left. split; [done|]. by intros v ?%elem_of_nil. }
  { inversion Hrow as [|? ? Hv _]; subst.
    by rewrite (Hlow v0 ltac:(by left)) in Hv. }
  subst j. eexists. split; [exact Hm|]. split; [exact Hmax|exact Hfirst].
Qed.

(** ** The matcher, anchor by anchor *)

Section MatcherExtras.
Variable overlap : Box → Box → float.

(** [compute_gt_annotations] returns one index pair per batch entry and
    anchor, in row-major order.  The pair of anchor [n] in entry [b] is
    [(b, j)], where [j] is the arg-max index of the overlaps of the anchor
    and the position of a box of the entry.  Where every overlap of the
    anchor is a number that is at least zero, box [j] attains the maximum
    overlap, no box overlaps the anchor more, and every box before [j]
    overlaps it strictly less: among equal maxima the first wins. *)
Theorem matched_index_is_arg_max anchors annotations neg pos P I idx b n gts a :
  compute_gt_annotations overlap anchors annotations neg pos
    = Some (P, I, idx) →
  annotations !! b = Some gts → anchors !! n = Some a →
  length idx = length annotations * length anchors ∧
  ∃ j g,
    idx !! (b * length anchors + n) = Some (Z.of_nat b, Z.of_nat j) ∧
    tf_argmax (overlap_row overlap a gts) = Some (Z.of_nat j) ∧
    gts !! j = Some g ∧
    let ov g' := overlap (box_map F64.cast a) (box_map F64.cast g') in
    (Forall (λ g', f_ge (ov g') (F64.of_Z 0) = true) gts →
     ∃ m, tf_reduce_max (overlap_row overlap a gts) = Some m ∧
       f_ge (ov g) m = true ∧
       ∀ k g', gts !! k = Some g' →
         f_gt (ov g') (ov g) = false ∧
         (k < j → f_gt (ov g) (ov g') = true)).
Proof.
  intros Hc Hgts Ha.
  destruct (compute_gt_annotations_Some _ _ _ _ _ _ _ _ Hc)
    as (argm & Hargm & -> & _ & _ & Hentry).
  split; [by apply index_pairs_length; destruct Hargm|].
  destruct (Hentry b n gts a Hgts Ha)
    as (j & m & gb & Hjbn & Hj & Hm & Hj0 & _).
  pose proof (tf_argmax_bounds _ _ Hj) as Hb.
  unfold overlap_row in Hb. rewrite !length_fmap in Hb.
  destruct (lookup_lt_is_Some_2 gts (Z.to_nat j)) as [g Hg]; [lia|].
  exists (Z.to_nat j), g. rewrite Z2Nat.id by lia.
  split_and!; [|done|done|].
  { apply index_pairs_lookup; [by destruct Hargm..|done]. }
  intros ov Hpos.
  assert (Forall (λ v, f_gt v lowest = true) (overlap_row overlap a gts))
    as Hrow.
  { unfold overlap_row. rewrite !Forall_fmap.
    eapply Forall_impl; [|exact Hpos]. intros g' Hg'. simpl in *.
    by apply f_ge_zero_gt_lowest. }
  assert (∀ k g', gts !! k = Some g' →
            overlap_row overlap a gts !! k = Some (ov g')) as Hlook.
  { intros k g' Hg'. unfold overlap_row. by rewrite !list_lookup_fmap, Hg'. }
  destruct (tf_argmax_spec _ _ Hrow Hj) as (mj & Hmj & Hmax & Hfirst).
  rewrite (Hlook _ _ Hg) in Hmj. injection Hmj as <-.
  destruct (tf_reduce_max_spec _ m Hrow) as [Hin Hall]; [|done|].
  { intros Hnil%(f_equal length). unfold overlap_row in Hnil.
    rewrite !length_fmap in Hnil. simpl in Hnil. lia. }
  exists m. split; [done|]. split.
  - apply list_elem_of_lookup_1 in Hin as [k Hk].
    pose proof (Hmax k m Hk) as Hle.
    assert (is_Some (f_key m)) as [km Hkm].
    { rewrite Forall_lookup in Hrow. pose proof (Hrow k m Hk) as Hk'.
      apply f_gt_key in Hk' as (? & _ & ? & _). eauto. }
    assert (is_Some (f_key (ov g))) as [kg Hkg].
    { rewrite Forall_lookup in Hrow.
      pose proof (Hrow _ _ (Hlook _ _ Hg)) as Hg'.
      apply f_gt_key in Hg' as (? & _ & ? & _). eauto. }
    rewrite (f_gt_false_key _ _ _ _ Hkm Hkg) in Hle.
    apply f_ge_key. by exists kg, km.
  - intros k g' Hg'. split; [by eapply Hmax, Hlook|].
    intros Hlt. by eapply Hfirst, Hlook.
Qed.

(** The arg-max index is also used as a position in the list of anchors:
    when an anchor's best box has an index that is no position of an
    anchor, the index is out of range for [tf.gather_nd] and
    [compute_gt_annotations] raises (the behaviour of the CPU kernel). *)
Theorem matcher_raises_on_index_beyond_anchors anchors annotations neg pos
    b n gts a j :
  annotations !! b = Some gts → anchors !! n = Some a →
  tf_argmax (overlap_row overlap a gts) = Some j →
  (Z.of_nat (length anchors) ≤ j)%Z →
  compute_gt_annotations overlap anchors annotations neg pos = None.
Proof.
  intros Hgts Ha Hj Hge.
  destruct (compute_gt_annotations _ _ _ _ _) as [[[P I] idx]|] eqn:Hc; [|done].
  destruct (compute_gt_annotations_Some _ _ _ _ _ _ _ _ Hc)
    as (argm & _ & _ & _ & _ & Hentry).
  destruct (Hentry b n gts a Hgts Ha)
    as (j' & m & gb & _ & Hj' & _ & Hj0 & Hgb & _).
  rewrite Hj in Hj'. injection Hj' as <-.
  apply lookup_lt_Some in Hgb. lia.
Qed.

(** With a batch entry that has no box at all, and at least one anchor,
    [compute_gt_annotations] raises: the arg-max of an empty row is
    undefined. *)
Theorem matcher_raises_on_entry_without_boxes anchors annotations neg pos b :
  annotations !! b = Some [] → anchors ≠ [] →
  compute_gt_annotations overlap anchors annotations neg pos = None.
Proof.
  intros Hgts Hne.
  destruct (compute_gt_annotations _ _ _ _ _) as [[[P I] idx]|] eqn:Hc; [|done].
  destruct (compute_gt_annotations_Some _ _ _ _ _ _ _ _ Hc)
    as (argm & _ & _ & _ & _ & Hentry).
  destruct anchors as [|a anchors]; [done|].
  by destruct (Hentry b 0 [] a Hgts eq_refl) as (j & m & gb & _ & Hj & _).
Qed.

(** [compute_gt_annotations] returns when the batch is not empty and every
    entry has at least one box and no more boxes than there are anchors; the
    two masks have one entry per batch entry and anchor, and there is one
    index pair for each. *)
Theorem matcher_returns anchors annotations neg pos :
  annotations ≠ [] →
  Forall (λ gts, 0 < length gts ≤ length anchors) annotations →
  ∃ P I idx,
    compute_gt_annotations overlap anchors annotations neg pos
      = Some (P, I, idx) ∧
    shape2 (length annotations) (length anchors) P ∧
    shape2 (length annotations) (length anchors) I ∧
    length idx = length annotations * length anchors.
Proof.
  intros Hne Hrows.
  destruct (compute_gt_annotations_is_Some overlap anchors annotations neg pos
              Hne Hrows) as [[[P I] idx] Hc].
  exists P, I, idx. split; [done|].
  destruct (compute_gt_annotations_Some _ _ _ _ _ _ _ _ Hc)
    as (argm & Hargm & -> & HP & HI & _).
  split_and!; [done..|]. by apply index_pairs_length; destruct Hargm.
Qed.

(** The three bands of the maximum overlap [m] of an anchor, when the
    positive threshold is above the negative one and every anchor has an
    area of at least 1: positive exactly when [m >= positive_overlap],
    ignored exactly when [positive_overlap > m > negative_overlap], and
    neither (background) exactly when [m > negative_overlap] fails. *)
Theorem threshold_bands anchors annotations neg pos P I idx b n gts a :
  compute_gt_annotations overlap anchors annotations neg pos
    = Some (P, I, idx) →
  Forall (λ a, f_lt (area (box_map F64.cast a)) (F64.of_Z 1) = false) anchors →
  f_gt pos neg = true →
  annotations !! b = Some gts → anchors !! n = Some a →
  ∃ m p i, tf_reduce_max (overlap_row overlap a gts) = Some m ∧
    at2 P b n = Some p ∧ at2 I b n = Some i ∧
    (p = true ↔ f_ge m pos = true) ∧
    (i = true ↔ f_gt m neg = true ∧ f_ge m pos = false) ∧
    (p = false ∧ i = false ↔ f_gt m neg = false).
Proof.
  intros Hc Hlarge Hnp Hgts Ha.
  destruct (boundary_values_large_anchors _ _ _ _ _ _ _ _ _ _ _ _
              Hc Hlarge Hgts Ha) as (m & Hm & HP & HI & _).
  exists m, (f_ge m pos), (f_gt m neg && negb (f_ge m pos)).
  split_and!; [done..| | |].
  - done.
  - rewrite andb_true_iff, negb_true_iff. done.
  - split.
    + intros [Hp [Hi|Hi]%andb_false_iff]; [done|].
      by rewrite Hp in Hi.
    + intros Hgt. rewrite Hgt. split; [|done].
      apply not_true_iff_false.
      intros (km & kp & Hkm & Hkp & Hle)%f_ge_key.
      apply f_gt_key in Hnp as (kp' & kn & Hkp' & Hkn & Hlt).
      assert (kp' = kp) as Heq by congruence.
      rewrite (f_gt_false_key _ _ _ _ Hkm Hkn) in Hgt. rewrite Heq in Hlt.
      unfold key_lt in *. lia.
Qed.
End MatcherExtras.

(** The first anchor of [two_anchors] is matched to the second box of
    [two_boxes], which is the anchor itself; its overlaps are 0 and 1. *)
Lemma matched_index_is_arg_max_witness :
  ∃ j g,
    [(0, 1)%Z; (0, 0)%Z] !! (0 * length two_anchors + 0)
      = Some (Z.of_nat 0, Z.of_nat j) ∧
    two_boxes !! j = Some g ∧
    ∃ m, tf_reduce_max (overlap_row iou (bx 0 0 10 10) two_boxes) = Some m ∧
      f_ge (iou (box_map F64.cast (bx 0 0 10 10)) (box_map F64.cast g)) m
        = true.
Proof.
  destruct (matched_index_is_arg_max iou two_anchors [two_boxes]
              default_negative_overlap default_positive_overlap
              [[true; true]] [[false; false]] [(0, 1)%Z; (0, 0)%Z]
              0 0 two_boxes (bx 0 0 10 10)
              ltac:(vm_compute; reflexivity) eq_refl eq_refl)
    as (_ & j & g & H1 & _ & H2 & H3).
  cbv zeta in H3.
  destruct (H3 ltac:(repeat constructor; vm_compute; reflexivity))
    as (m & Hm & Hge & _).
  exists j, g. split_and!; [exact H1|exact H2|].
  exists m. split; [exact Hm|exact Hge].
Defined.

(** One anchor, and two boxes of which the second is the better one. *)
Lemma matcher_raises_on_index_beyond_anchors_witness :
  compute_gt_annotations iou [bx 0 0 10 10] [two_boxes]
      default_negative_overlap default_positive_overlap
    = None.
Proof.
  apply (matcher_raises_on_index_beyond_anchors iou [bx 0 0 10 10] [two_boxes]
           default_negative_overlap default_positive_overlap
           0 0 two_boxes (bx 0 0 10 10) 1).
  - reflexivity.
  - reflexivity.
  - by vm_compute.
  - simpl. lia.
Defined.

(** One anchor and an image without boxes. *)
Lemma matcher_raises_on_entry_without_boxes_witness :
  compute_gt_annotations iou [bx 0 0 10 10] [[]]
      default_negative_overlap default_positive_overlap
    = None.
Proof.
  apply (matcher_raises_on_entry_without_boxes iou [bx 0 0 10 10] [[]]
           default_negative_overlap default_positive_overlap 0).
  - reflexivity.
  - discriminate.
Defined.

(** Two anchors and an image with two boxes. *)
Lemma matcher_returns_witness :
  ∃ P I idx,
    compute_gt_annotations iou two_anchors [two_boxes]
        default_negative_overlap default_positive_overlap
      = Some (P, I, idx) ∧
    shape2 (length [two_boxes]) (length two_anchors) P ∧
    shape2 (length [two_boxes]) (length two_anchors) I ∧
    length idx = length [two_boxes] * length two_anchors.
Proof.
  apply (matcher_returns iou two_anchors [two_boxes]
           default_negative_overlap default_positive_overlap).
  - discriminate.
  - repeat constructor.
Defined.

(** The first anchor of [two_anchors] has maximum overlap 1 and is
    positive. *)
Lemma threshold_bands_witness :
  ∃ m p i,
    tf_reduce_max (overlap_row iou (bx 0 0 10 10) two_boxes) = Some m ∧
    at2 [[true; true]] 0 0 = Some p ∧ at2 [[false; false]] 0 0 = Some i ∧
    (p = true ↔ f_ge m default_positive_overlap = true) ∧
    (i = true ↔ f_gt m default_negative_overlap = true
                ∧ f_ge m default_positive_overlap = false) ∧
    (p = false ∧ i = false ↔ f_gt m default_negative_overlap = false).
Proof.
  apply (threshold_bands iou two_anchors [two_boxes]
           default_negative_overlap default_positive_overlap
           [[true; true]] [[false; false]] [(0, 1)%Z; (0, 0)%Z]
           0 0 two_boxes (bx 0 0 10 10)).
  - by vm_compute.
  - repeat constructor; by vm_compute.
  - by vm_compute.
  - reflexivity.
  - reflexivity.
Defined.

(** ** The anchor generator and its caller *)

Module AnchorGeneratorExtras.
Import AnchorGenerator AnchorGeneratorProps.

(** The entries of a tiled vector. *)
Lemma np_tile_lookup {A} (v : list A) reps r s x :
  r < reps → v !! s = Some x → np_tile v reps !! (r * length v + s) = Some x.
Proof.
  intros Hr Hs. unfold np_tile.
  apply join_lookup_Some_same_length'.
  - by apply Forall_replicate.
  - by eapply lookup_lt_Some.
  - exists v. split; [by apply lookup_replicate_2|done].
Qed.

(** The entries of a vector whose elements are repeated. *)
Lemma np_repeat_lookup {A} (v : list A) k r s x :
  v !! r = Some x → s < k → np_repeat v k !! (r * k + s) = Some x.
Proof.
  unfold np_repeat. revert r. induction v as [|y v IH]; intros r Hr Hs; [done|].
  csimpl. destruct r as [|r]; simpl in *.
  - injection Hr as ->. rewrite lookup_app_l by (by rewrite length_replicate).
    by apply lookup_replicate_2.
  - rewrite lookup_app_r by (rewrite length_replicate; lia).
    rewrite length_replicate.
    replace (k + r * k + s - k) with (r * k + s) by lia. by apply IH.
Qed.

(** [_generate] returns one anchor per pair of an aspect ratio and a scale,
    enumerated ratio by ratio and, within a ratio, scale by scale.  The
    anchor of ratio [ratio] and scale [scale] is centred at the origin, has
    width [sqrt ((size * scale) ^ 2 / ratio)] and height [width * ratio]. *)
Theorem canonical_anchors_layout size aspect_ratios anchor_scales :
  length (_generate size aspect_ratios anchor_scales)
    = length aspect_ratios * length anchor_scales ∧
  ∀ r s ratio scale,
    aspect_ratios !! r = Some ratio → anchor_scales !! s = Some scale →
    let side := Np.mul size scale in
    let w := Np.sqrt (Np.div (Np.mul side side) ratio) in
    let h := Np.mul w ratio in
    let half := F64.div (F64.of_Z 1) (F64.of_Z 2) in
    let zero := S754_zero false in
    _generate size aspect_ratios anchor_scales !! (r * length anchor_scales + s)
    = Some (mkBox (Np.sub zero (Np.mul w half)) (Np.sub zero (Np.mul h half))
                  (Np.sub w (Np.mul w half)) (Np.sub h (Np.mul h half))).
Proof.
  split; [apply _generate_length|].
  intros r s ratio scale Hr Hs. cbv zeta.
  assert (r < length aspect_ratios) as Hr' by (by eapply lookup_lt_Some).
  assert (s < length anchor_scales) as Hs' by (by eapply lookup_lt_Some).
  pose proof (np_tile_lookup anchor_scales (length aspect_ratios) r s scale
                Hr' Hs) as Htile.
  pose proof (np_repeat_lookup aspect_ratios (length anchor_scales) r s ratio
                Hr Hs') as Hrep.
  unfold _generate.
  rewrite !lookup_zip_with, !list_lookup_fmap, Htile.
  repeat (progress (rewrite ?Hrep; cbn -[np_repeat np_tile])).
  reflexivity.
Qed.

(** Size 32 with ratios 1 and 4: the anchor of ratio 4 and scale 1 is 16
    wide and 64 high. *)
Lemma canonical_anchors_layout_witness :
  _generate (F64.of_Z 32) [F64.of_Z 1; F64.of_Z 4] default_anchor_scales !! 3
  = Some (bx (-8) (-32) 8 32).
Proof.
  exact (proj2 (canonical_anchors_layout (F64.of_Z 32) [F64.of_Z 1; F64.of_Z 4]
                  default_anchor_scales)
           1 0 (F64.of_Z 4) (F64.of_Z 1) eq_refl eq_refl).
Defined.
End AnchorGeneratorExtras.

Module GenerateAnchorsProps.
Import AnchorGenerator AnchorGeneratorProps.

(** A generator built by [__init__] tiles any feature map, and returns
    [3 · |ratios|] anchors per cell. *)
Lemma tile_returns size aspect_ratios stride h w :
  ∃ T, tile_anchors_over_feature_map (__init__ size aspect_ratios stride) h w
       = Some T ∧
       length T = h * w * (length aspect_ratios * 3).
Proof.
  destruct (__init__length size aspect_ratios stride) as [Hlen HA].
  unfold tile_anchors_over_feature_map. rewrite decide_True by done.
  eexists. split; [reflexivity|].
  rewrite length_join, (sum_list_fmap_same (length aspect_ratios * 3)).
  - rewrite length_fmap. simpl. by rewrite (shifts_length stride h w).
  - rewrite Forall_fmap. apply Forall_forall. intros s _. simpl.
    rewrite length_fmap. simpl in *. congruence.
Qed.


(** [generate_anchors] needs five sizes and five strides; it then returns the
    anchors of the five levels, [3 · |ratios|] for every cell of every
    level's square feature map. *)
Theorem generate_anchors_count anchors_config im_shape :
  5 ≤ length (config.sizes anchors_config) → 5 ≤ length (config.strides anchors_config) →
  ∃ all_anchors,
    generate_anchors anchors_config im_shape = Some all_anchors ∧
    length all_anchors
    = ((im_shape `div` 2) ^ 2 + (im_shape `div` 4) ^ 2
       + (im_shape `div` 8) ^ 2 + (im_shape `div` 16) ^ 2
       + (im_shape `div` 32) ^ 2)
      * (length (config.ratios anchors_config) * 3).
Proof.
  destruct anchors_config as [szs strs rts]. cbn [config.sizes config.strides config.ratios].
  intros Hs Ht.
  destruct szs as [|s0 [|s1 [|s2 [|s3 [|s4 szs]]]]]; simpl in Hs; try lia.
  destruct strs as [|t0 [|t1 [|t2 [|t3 [|t4 strs]]]]]; simpl in Ht; try lia.
  remember (im_shape `div` 2) as d2 eqn:E2.
  remember (im_shape `div` 4) as d4 eqn:E4.
  remember (im_shape `div` 8) as d8 eqn:E8.
  remember (im_shape `div` 16) as d16 eqn:E16.
  remember (im_shape `div` 32) as d32 eqn:E32.
  unfold generate_anchors, AnchorGenerator__call__.
  cbn -[tile_anchors_over_feature_map __init__ Nat.div Nat.pow].
  change (2 ^ 1) with 2. change (2 ^ 2) with 4. change (2 ^ 3) with 8.
  change (2 ^ 4) with 16. change (2 ^ 5) with 32.
  rewrite <- E2, <- E4, <- E8, <- E16, <- E32.
  destruct (tile_returns s0 rts t0 d2 d2) as (T0 & -> & H0).
  destruct (tile_returns s1 rts t1 d4 d4) as (T1 & -> & H1).
  destruct (tile_returns s2 rts t2 d8 d8) as (T2 & -> & H2).
  destruct (tile_returns s3 rts t3 d16 d16) as (T3 & -> & H3).
  destruct (tile_returns s4 rts t4 d32 d32) as (T4 & -> & H4).
  eexists. split; [reflexivity|].
  cbn [mjoin list_join]. rewrite !length_app, H0, H1, H2, H3, H4.
  subst. simpl length. rewrite !Nat.pow_2_r. lia.
Qed.

(** With fewer than five sizes or strides the list index raises. *)
Theorem generate_anchors_short_config anchors_config im_shape :
  length (config.sizes anchors_config) < 5 ∨ length (config.strides anchors_config) < 5 →
  generate_anchors anchors_config im_shape = None.
Proof.
  destruct anchors_config as [szs strs rts]. simpl. intros Hshort.
  unfold generate_anchors.
  destruct (mapM _ (seq 3 5)) as [gens|] eqn:Hgens; [|done]. exfalso.
  apply mapM_Some in Hgens.
  assert (∀ i, 3 ≤ i < 8 → is_Some (szs !! (i - 3)) ∧ is_Some (strs !! (i - 3)))
    as Hall.
  { intros i Hi.
    destruct (Forall2_lookup_l _ _ _ (i - 3) i Hgens) as (g & _ & Hg).
    { rewrite lookup_seq_lt by lia. f_equal. lia. }
    simpl in Hg.
    destruct (szs !! (i - 3)); [|done]. simpl in Hg.
    destruct (strs !! (i - 3)); [|done]. by split. }
  destruct (Hall 7 ltac:(lia)) as [Hs Ht].
  apply lookup_lt_is_Some in Hs, Ht. simpl in *. lia.
Qed.

(** An image of side 32 has feature maps of sides 16, 8, 4, 2 and 1. *)
Lemma generate_anchors_count_witness :
  ∃ all_anchors,
    generate_anchors five_levels 32 = Some all_anchors ∧
    length all_anchors
    = ((32 `div` 2) ^ 2 + (32 `div` 4) ^ 2 + (32 `div` 8) ^ 2
       + (32 `div` 16) ^ 2 + (32 `div` 32) ^ 2)
      * (length (config.ratios five_levels) * 3).
Proof.
  apply (generate_anchors_count five_levels 32).
  - simpl. lia.
  - simpl. lia.
Defined.

(** Four sizes for five levels. *)
Lemma generate_anchors_short_config_witness :
  generate_anchors four_sizes 32 = None.
Proof.
  apply (generate_anchors_short_config four_sizes 32).
  left. simpl. lia.
Defined.
End GenerateAnchorsProps.

(** ** The target encoder, anchor by anchor *)

Section EncoderExtras.
Variable overlap : Box → Box → float.

(** The rows of an anchor in the two outputs are its [anchor_entry] against
    the boxes and labels of its batch entry. *)
Lemma anchor_targets_bbox_explicit anchors images bndboxes labels C pad neg pos
    R L b n gts a :
  anchor_targets_bbox overlap anchors images bndboxes labels C pad neg pos
    = Some (R, L) →
  bndboxes !! b = Some gts → anchors !! n = Some a →
  ∃ ls r c,
    labels !! b = Some ls ∧
    anchor_entry overlap anchors images gts ls C pad neg pos a = Some (r, c) ∧
    at2 R b n = Some r ∧ at2 L b n = Some c.
Proof.
  intros Ha Hgts Han. unfold anchor_targets_bbox in Ha.
  apply bind_Some in Ha as ([[[Pf If] cl] idx] & Ho & Ha).
  apply bind_Some in Ha as (bflat & Hbflat & Ha).
  apply bind_Some in Ha as (cb & Hcb & Ha).
  apply bind_Some in Ha as (T & HT & Ha).
  injection Ha as <- <-.
  unfold out_of_image_masking in Ho.
  apply bind_Some in Ho as ([[[P' I'] cl'] idx'] & Hp & Ho).
  apply bind_Some in Ho as (If' & HIf & Ho).
  injection Ho as -> -> -> ->.
  pose proof Hp as Hp0. unfold padding_demotion in Hp.
  apply bind_Some in Hp as ([[P I] idx'] & Hc & Hp).
  apply bind_Some in Hp as (lflat & Hlflat & Hp).
  apply bind_Some in Hp as (cl' & Hcl & Hp).
  apply bind_Some in Hp as (P'' & HP' & Hp).
  apply bind_Some in Hp as (I'' & HI' & Hp).
  injection Hp as -> -> -> ->.
  destruct (compute_gt_annotations_Some _ _ _ _ _ _ _ _ Hc)
    as (argm & Hargm & -> & HP & HI & Hentry).
  destruct (padding_demotion_Some _ _ _ _ _ _ _ _ _ _ _ _ Hp0)
    as (_ & _ & _ & _ & HB & _).
  rewrite HB in Hcl, Hcb.
  destruct (gather_reshape_at2 _ _ _ argm lflat cl
              (proj1 Hargm) (proj2 Hargm) Hlflat Hcl) as (_ & _ & Hgl).
  destruct (gather_reshape_at2 _ _ _ argm bflat cb
              (proj1 Hargm) (proj2 Hargm) Hbflat Hcb) as (_ & _ & Hgb).
  apply zip2_same_Some in HP' as [_ ->].
  apply zip2_same_Some in HI' as [_ ->].
  destruct (Hentry b n gts a Hgts Han)
    as (j & m & gb & Hjbn & Hj & Hm & Hj0 & Hgbj & HPbn & HIbn).
  destruct (Hgl b n j Hjbn) as (_ & l & Hlbn & Hlj).
  destruct (Hgb b n j Hjbn) as (_ & g & Hgbn & Hgj).
  unfold at2 in Hlj, Hgj. rewrite Hgts in Hgj. simpl in Hgj.
  destruct (labels !! b) as [ls|] eqn:Hls; [|done]. simpl in Hlj.
  pose proof (bbox_transform_at2 _ _ _ b n a g HT Han Hgbn) as HTbn.
  cbv zeta in HTbn, HPbn, HIbn.
  exists ls. do 2 eexists. split; [done|].
  unfold anchor_entry. rewrite Hj, Hm. simpl. rewrite Hgbj, Hgj. simpl.
  rewrite Hlj. simpl. split; [reflexivity|]. split.
  - repeat (progress (rewrite ?at2_zip2, ?at2_map2,
                        ?(at2_bcast_rows _ _ _ _ b n HIf),
                        ?HTbn, ?HPbn, ?HIbn, ?Hlbn,
                        ?(out_mask_lookup _ images _ _ Han); simpl)).
    reflexivity.
  - repeat (progress (rewrite ?at2_zip2, ?at2_map2,
                        ?(at2_bcast_rows _ _ _ _ b n HIf),
                        ?HPbn, ?HIbn, ?Hlbn,
                        ?(out_mask_lookup _ images _ _ Han); simpl)).
    reflexivity.
Qed.

(** [compute_gt_annotations] returns when there is a batch entry and every
    anchor has, in every batch entry, an arg-max index that is also the
    position of an anchor. *)
Lemma compute_gt_annotations_complete anchors annotations neg pos :
  annotations ≠ [] →
  (∀ b n gts a, annotations !! b = Some gts → anchors !! n = Some a →
     ∃ j, tf_argmax (overlap_row overlap a gts) = Some j ∧
          (j < Z.of_nat (length anchors))%Z) →
  is_Some (compute_gt_annotations overlap anchors annotations neg pos).
Proof.
  intros Hne Hrows. unfold compute_gt_annotations.
  set (overlaps := bbox_overlap _ _ _).
  assert (∀ b n row, at2 overlaps b n = Some row →
            ∃ gts a, annotations !! b = Some gts ∧ anchors !! n = Some a
                     ∧ row = overlap_row overlap a gts) as Hov.
  { intros b n row Hrow. subst overlaps. rewrite bbox_overlap_at2 in Hrow.
    destruct (annotations !! b) as [gts|]; [|done]. simpl in Hrow.
    destruct (anchors !! n) as [a|]; [|done]. naive_solver. }
  assert (shape2 (length annotations) (length anchors) overlaps) as Hovshape
    by apply bbox_overlap_shape.
  set (B := length annotations) in *. set (N := length anchors) in *.
  assert (B ≠ 0) as HB0 by (subst B; by destruct annotations).
  assert (∀ b n row, at2 overlaps b n = Some row →
            ∃ j, tf_argmax row = Some j ∧ (j < Z.of_nat N)%Z) as Hlen.
  { intros b n row (gts & a & Hgts & Ha & ->)%Hov. eauto. }
  assert (is_Some (mapM (mapM tf_argmax) overlaps)) as [argm Hargm].
  { apply mapM_is_Some, Forall_lookup. intros b rows Hb. simpl.
    apply mapM_is_Some, Forall_lookup. intros n row Hn. simpl.
    destruct (Hlen b n row) as (j & -> & _); [|done].
    unfold at2. by rewrite Hb. }
  assert (is_Some (mapM (mapM tf_reduce_max) overlaps)) as [maxo Hmaxo].
  { apply mapM_is_Some, Forall_lookup. intros b rows Hb. simpl.
    apply mapM_is_Some, Forall_lookup. intros n row Hn. simpl.
    destruct (Hlen b n row) as (j & Hj & _).
    - unfold at2. by rewrite Hb.
    - apply tf_reduce_max_is_Some. by destruct row. }
  rewrite Hargm, Hmaxo. simpl.
  pose proof (mapM2_Some _ _ _ Hargm) as [Hshape Hat].
  eapply shape2_Forall2 in Hshape; [|exact Hovshape].
  destruct (gather_index_pairs_is_Some
              (replicate B (map (box_map F64.cast) anchors)) N B argm Hshape)
    as (flat & Hflat & Hflen).
  { intros b n j Hj.
    destruct (shape2_at2_lt _ _ _ _ _ _ Hshape Hj) as [Hb Hn].
    rewrite Hat in Hj. fold overlaps in Hj.
    destruct (at2 overlaps b n) as [row|] eqn:Hrow; [|done]. simpl in Hj.
    destruct (Hlen _ _ _ Hrow) as (j' & Hj' & Hle).
    rewrite Hj in Hj'. injection Hj' as <-.
    apply tf_argmax_bounds in Hj.
    split; [lia|]. unfold at2. rewrite lookup_replicate_2 by done. simpl.
    apply lookup_lt_is_Some_2. rewrite length_fmap. fold N. lia. }
  unfold index_pairs in Hflat. fold B N. rewrite Hflat. simpl.
  destruct (tf_reshape_rows_is_Some B N flat HB0 Hflen) as [boxes ->].
  by eexists.
Qed.

(** [anchor_targets_bbox] returns when [images] and [bndboxes] agree on the
    batch size, there is a batch entry, and every anchor has, in every batch
    entry, an arg-max index that is the position of an anchor and of a
    label. *)
Lemma anchor_targets_bbox_complete anchors images bndboxes labels C pad neg pos :
  batch images = length bndboxes →
  bndboxes ≠ [] →
  (∀ b n gts a, bndboxes !! b = Some gts → anchors !! n = Some a →
     ∃ j, tf_argmax (overlap_row overlap a gts) = Some j ∧
          (j < Z.of_nat (length anchors))%Z ∧
          is_Some (at2 labels b (Z.to_nat j))) →
  is_Some (anchor_targets_bbox overlap anchors images bndboxes labels
                               C pad neg pos).
Proof.
  intros Hbatch Hne Hrows.
  destruct (compute_gt_annotations_complete anchors bndboxes neg pos Hne)
    as [[[P I] idx] Hc].
  { intros b n gts a Hgts Ha.
    destruct (Hrows b n gts a Hgts Ha) as (j & ? & ? & _). eauto. }
  destruct (compute_gt_annotations_Some _ _ _ _ _ _ _ _ Hc)
    as (argm & Hargm & -> & HP & HI & Hentry).
  assert (∀ b n j, at2 argm b n = Some j →
            ∃ gts, bndboxes !! b = Some gts ∧
                   (0 ≤ j < Z.of_nat (length gts))%Z ∧
                   is_Some (at2 labels b (Z.to_nat j))) as Hj.
  { intros b n j Hjbn.
    destruct (shape2_at2_lt _ _ _ _ _ _ Hargm Hjbn) as [Hb Hn].
    destruct (lookup_lt_is_Some_2 bndboxes b Hb) as [gts Hgts].
    destruct (lookup_lt_is_Some_2 anchors n Hn) as [a Ha].
    destruct (Hentry b n gts a Hgts Ha)
      as (j' & m & gb & Hj' & Hargmax & _).
    rewrite Hjbn in Hj'. injection Hj' as <-.
    destruct (Hrows b n gts a Hgts Ha) as (j' & Hj' & _ & Hl).
    rewrite Hargmax in Hj'. injection Hj' as <-.
    apply tf_argmax_bounds in Hargmax.
    unfold overlap_row in Hargmax. rewrite !length_fmap in Hargmax. eauto. }
  destruct (gather_index_pairs_is_Some labels _ _ argm Hargm)
    as (lflat & Hlflat & Hllen).
  { intros b n j (gts & Hgts & Hjr & Hl)%Hj. split; [lia|done]. }
  destruct (gather_index_pairs_is_Some bndboxes _ _ argm Hargm)
    as (bflat & Hbflat & Hblen).
  { intros b n j (gts & Hgts & Hjr & _)%Hj. split; [lia|].
    unfold at2. rewrite Hgts. simpl. apply lookup_lt_is_Some_2. lia. }
  assert (length bndboxes ≠ 0) as HB0 by (by destruct bndboxes).
  destruct (tf_reshape_rows_is_Some _ _ lflat HB0 Hllen) as [cl Hcl].
  destruct (tf_reshape_rows_is_Some _ _ bflat HB0 Hblen) as [cb Hcb].
  destruct (gather_reshape_at2 _ _ _ argm lflat cl
              (proj1 Hargm) (proj2 Hargm) Hlflat Hcl) as (Hcl1 & Hcl2 & _).
  destruct (gather_reshape_at2 _ _ _ argm bflat cb
              (proj1 Hargm) (proj2 Hargm) Hbflat Hcb) as (Hcb1 & Hcb2 & _).
  assert (shape2 (length bndboxes) (length anchors) cl) as Hclshape by done.
  destruct (proj1 (bbox_transform_is_Some anchors cb) Hcb2) as [T HT].
  unfold anchor_targets_bbox, out_of_image_masking, padding_demotion.
  rewrite Hc. simpl. rewrite Hlflat. simpl. rewrite Hbatch, Hcl. simpl.
  rewrite (zip2_same_complete andb (length bndboxes) (length anchors))
    by solve_shape2. simpl.
  rewrite (zip2_same_complete orb (length bndboxes) (length anchors))
    by solve_shape2. simpl.
  rewrite bcast_rows_complete.
  2:{ assert (shape2 (length bndboxes) (length anchors) (zip2 orb I
        (map2 negb (map2 (λ l, negb (bool_decide (l = pad))) cl)))) as [_ HN]
        by solve_shape2.
      eapply Forall_impl; [|exact HN]. intros r Hr. simpl in *. rewrite Hr.
      unfold out_mask.
      rewrite length_zip_with, !length_fmap, !length_zip_with, !length_fmap.
      lia. }
  simpl. rewrite Hbflat. simpl. rewrite Hcb. simpl. rewrite HT. simpl.
  by eexists.
Qed.

(** No information crosses between batch entries: the rows that a batch
    entry gets in a batch are the rows it gets alone. *)
Theorem batch_entries_are_independent anchors images bndboxes labels C pad
    neg pos R L b gts ls Rb Lb :
  anchor_targets_bbox overlap anchors images bndboxes labels C pad neg pos
    = Some (R, L) →
  bndboxes !! b = Some gts → labels !! b = Some ls →
  R !! b = Some Rb → L !! b = Some Lb →
  anchor_targets_bbox overlap anchors
      (mkShape 1 (height images) (width images) (channels images))
      [gts] [ls] C pad neg pos
    = Some ([Rb], [Lb]).
Proof.
  intros Ha Hgts Hls HRb HLb.
  set (images1 := mkShape 1 (height images) (width images) (channels images)).
  assert (∀ n a, anchors !! n = Some a →
            ∃ r c, anchor_entry overlap anchors images1 gts ls C pad neg pos a
                     = Some (r, c) ∧ Rb !! n = Some r ∧ Lb !! n = Some c)
    as Hentries.
  { intros n a Han.
    destruct (anchor_targets_bbox_explicit _ _ _ _ _ _ _ _ _ _ b n gts a
                Ha Hgts Han) as (ls' & r & c & Hls' & He & Hr & Hc).
    rewrite Hls in Hls'. injection Hls' as <-.
    unfold at2 in Hr, Hc. rewrite HRb in Hr. rewrite HLb in Hc.
    exists r, c. done. }
  destruct (anchor_targets_bbox_complete anchors images1 [gts] [ls] C pad
              neg pos) as [[R1 L1] H1]; [done|done| |].
  { intros [|b'] n gts' a Hgts' Han; [|done]. injection Hgts' as <-.
    destruct (Hentries n a Han) as (r & c & He & _).
    unfold anchor_entry in He.
    destruct (tf_argmax _) as [j|]; [|done]. simpl in He.
    destruct (tf_reduce_max _); [|done]. simpl in He.
    destruct (anchors !! Z.to_nat j) eqn:Hj; [|done]. simpl in He.
    destruct (gts !! Z.to_nat j) eqn:Hg; [|done]. simpl in He.
    destruct (ls !! Z.to_nat j) eqn:Hl; [|done].
    exists j. split_and!; [done| |].
    2:{ change (is_Some (ls !! Z.to_nat j)). by rewrite Hl. }
    apply lookup_lt_Some in Hj.
    destruct (decide (0 ≤ j)%Z); lia. }
  rewrite H1. f_equal.
  destruct (anchor_targets_bbox_shape _ _ _ _ _ _ _ _ _ _ _ Ha)
    as [[_ HRN] [_ HLN]].
  destruct (anchor_targets_bbox_shape _ _ _ _ _ _ _ _ _ _ _ H1)
    as [[HR1 HR1N] [HL1 HL1N]].
  simpl in HR1, HL1.
  destruct R1 as [|R1b [|]]; try done. destruct L1 as [|L1b [|]]; try done.
  assert (R1b = Rb ∧ L1b = Lb) as [-> ->]; [|done].
  pose proof (Forall_lookup_1 _ _ _ _ HRN HRb) as HRblen.
  pose proof (Forall_lookup_1 _ _ _ _ HLN HLb) as HLblen.
  pose proof (Forall_lookup_1 _ _ 0 _ HR1N eq_refl) as HR1len.
  pose proof (Forall_lookup_1 _ _ 0 _ HL1N eq_refl) as HL1len.
  simpl in *.
  split; apply list_eq; intros n.
  - destruct (anchors !! n) as [a|] eqn:Han.
    + destruct (Hentries n a Han) as (r & c & He & -> & _).
      destruct (anchor_targets_bbox_explicit _ _ _ _ _ _ _ _ _ _ 0 n gts a
                  H1 eq_refl Han) as (ls' & r' & c' & [= <-] & He' & Hr' & _).
      rewrite He in He'. injection He' as <- <-. exact Hr'.
    + apply lookup_ge_None in Han.
      rewrite !(proj2 (lookup_ge_None _ _)); [done|lia..].
  - destruct (anchors !! n) as [a|] eqn:Han.
    + destruct (Hentries n a Han) as (r & c & He & _ & ->).
      destruct (anchor_targets_bbox_explicit _ _ _ _ _ _ _ _ _ _ 0 n gts a
                  H1 eq_refl Han) as (ls' & r' & c' & [= <-] & He' & _ & Hc').
      rewrite He in He'. injection He' as <- <-. exact Hc'.
    + apply lookup_ge_None in Han.
      rewrite !(proj2 (lookup_ge_None _ _)); [done|lia..].
Qed.
(** [anchor_targets_bbox] returns when [images] and [bndboxes] agree on a
    batch size that is not zero, every batch entry has at least one box and
    no more boxes than there are anchors, and every batch entry has as many
    labels as boxes. *)
Theorem encoder_returns anchors images bndboxes labels C pad neg pos :
  batch images = length bndboxes →
  bndboxes ≠ [] →
  Forall (λ gts, 0 < length gts ≤ length anchors) bndboxes →
  Forall2 (λ gts ls, length gts = length ls) bndboxes labels →
  ∃ R L,
    anchor_targets_bbox overlap anchors images bndboxes labels C pad neg pos
      = Some (R, L).
Proof.
  intros Hb Hne Hrows Hlabels.
  destruct (anchor_targets_bbox_is_Some overlap anchors images bndboxes labels
              C pad neg pos Hb Hne Hrows Hlabels) as [[R L] H].
  by exists R, L.
Qed.

(** The two outputs have one row per batch entry and anchor; a regression
    row has 4 + 1 entries and a classification row [num_classes + 1]; the
    last entry of both is the same anchor state, one of −1, 0 and 1. *)
Theorem output_layout anchors images bndboxes labels C pad neg pos R L :
  anchor_targets_bbox overlap anchors images bndboxes labels C pad neg pos
    = Some (R, L) →
  length R = length bndboxes ∧ length L = length bndboxes ∧
  batch images = length bndboxes ∧
  Forall (λ Rb, length Rb = length anchors) R ∧
  Forall (λ Lb, length Lb = length anchors) L ∧
  ∀ b n r c, at2 R b n = Some r → at2 L b n = Some c →
    length r = 5 ∧ length c = C + 1 ∧
    ∃ s, (s = F32.of_Z (-1) ∨ s = F32.of_Z 0 ∨ s = F32.of_Z 1) ∧
         r !! 4 = Some s ∧ c !! C = Some s.
Proof.
  intros Ha.
  destruct (anchor_targets_bbox_Some _ _ _ _ _ _ _ _ _ _ _ Ha)
    as (Pf & If & cl & idx & Ho & HPf & HIf & Hcl & [HR HRN] & [HL HLN]
        & Hentry).
  destruct (out_of_image_masking_Some _ _ _ _ _ _ _ _ _ _ _ _ Ho)
    as (I' & Hp & _).
  destruct (padding_demotion_Some _ _ _ _ _ _ _ _ _ _ _ _ Hp)
    as (_ & _ & _ & _ & HB & _).
  split_and!; [done..|].
  intros b n r c Hr Hc.
  destruct (shape2_at2_lt _ _ _ _ _ _ (conj HR HRN) Hr) as [Hb Hn].
  destruct (shape2_at2_is_Some _ _ Pf b n HPf Hb Hn) as [p Hpbn].
  destruct (shape2_at2_is_Some _ _ If b n HIf Hb Hn) as [i Hibn].
  destruct (shape2_at2_is_Some _ _ cl b n Hcl Hb Hn) as [l Hlbn].
  destruct (Hentry b n p i l Hpbn Hibn Hlbn) as (reg & Hreg & Hr' & Hc').
  rewrite Hr in Hr'. rewrite Hc in Hc'. injection Hr' as ->. injection Hc' as ->.
  rewrite !length_app, length_fmap, one_hot_length, Hreg. simpl.
  split_and!; [done|done|].
  exists (anchor_state p i). split_and!.
  - destruct p, i; simpl; auto.
  - by rewrite lookup_app_r, Hreg by lia.
  - rewrite lookup_app_r; rewrite length_fmap, one_hot_length; [|lia].
    by rewrite Nat.sub_diag.
Qed.

(** The class columns of an anchor, from its final masks and its matched
    label [l]: all zero when ignored; otherwise, when positive, 1 in column
    [l] and 0 elsewhere (all zero when [l] is no class index); otherwise 1 in
    column 0 and 0 elsewhere. *)
Theorem class_row_by_state anchors images bndboxes labels C pad neg pos
    R L Pf If cl idx b n p i l :
  anchor_targets_bbox overlap anchors images bndboxes labels C pad neg pos
    = Some (R, L) →
  out_of_image_masking overlap anchors images bndboxes labels pad neg pos
    = Some (Pf, If, cl, idx) →
  at2 Pf b n = Some p → at2 If b n = Some i → at2 cl b n = Some l →
  ∃ c, at2 L b n = Some c ∧
    ∀ k, k < C →
      c !! k = Some (if i then F32.of_Z 0
                     else if p then (if decide (l = Z.of_nat k)
                                     then F32.of_Z 1 else F32.of_Z 0)
                     else (if decide (k = 0)
                           then F32.of_Z 1 else F32.of_Z 0)).
Proof.
  intros Ha Ho Hp Hi Hl.
  destruct (classification_rows _ _ _ _ _ _ _ _ _ _ _ _ _ _ _ b n p i l
              Ha Ho Hp Hi Hl) as (row & HL & Hlen & H1 & H2 & H3).
  eexists. split; [exact HL|]. intros k Hk.
  rewrite lookup_app_l by lia.
  destruct i.
  - rewrite H1 by done. by apply lookup_replicate_2.
  - destruct p.
    + rewrite H3 by done. unfold one_hot.
      rewrite !list_lookup_fmap, lookup_seqZ_lt by lia. simpl.
      rewrite Z.add_0_l. by repeat case_decide.
    + rewrite H2 by done. unfold one_hot.
      rewrite !list_lookup_fmap, lookup_seqZ_lt by lia. simpl.
      rewrite Z.add_0_l. repeat case_decide; (done || lia).
Qed.

(** The regression row of every anchor, whatever its state, holds the
    regression target of the anchor against the box of its batch entry with
    the maximum overlap. *)
Theorem regression_is_against_matched_box anchors images bndboxes labels C
    pad neg pos R L b n gts a :
  anchor_targets_bbox overlap anchors images bndboxes labels C pad neg pos
    = Some (R, L) →
  bndboxes !! b = Some gts → anchors !! n = Some a →
  ∃ j g r,
    tf_argmax (overlap_row overlap a gts) = Some j ∧
    gts !! Z.to_nat j = Some g ∧
    at2 R b n = Some r ∧ take 4 r = regression_target a g.
Proof.
  intros Ha Hgts Han.
  destruct (anchor_targets_bbox_explicit _ _ _ _ _ _ _ _ _ _ b n gts a
              Ha Hgts Han) as (ls & r & c & Hls & He & Hr & Hc).
  unfold anchor_entry in He.
  destruct (tf_argmax _) as [j|] eqn:Hj; [|done]. simpl in He.
  destruct (tf_reduce_max _); [|done]. simpl in He.
  destruct (anchors !! Z.to_nat j); [|done]. simpl in He.
  destruct (gts !! Z.to_nat j) as [g|] eqn:Hg; [|done]. simpl in He.
  destruct (ls !! Z.to_nat j); [|done]. simpl in He.
  injection He as <- <-. exists j, g. eexists.
  split_and!; [reflexivity|exact Hg|exact Hr|reflexivity].
Qed.

(** For an anchor whose matched label is not the padding value and whose
    centre is inside the image, the final masks are the masks of
    [compute_gt_annotations]. *)
Theorem real_match_inside_image_keeps_state anchors images bndboxes labels
    pad neg pos P I idx Pf If cl idx' b n a l :
  compute_gt_annotations overlap anchors bndboxes neg pos = Some (P, I, idx) →
  out_of_image_masking overlap anchors images bndboxes labels pad neg pos
    = Some (Pf, If, cl, idx') →
  anchors !! n = Some a → at2 cl b n = Some l →
  l ≠ pad → out_of_image images a = false →
  at2 Pf b n = at2 P b n ∧ at2 If b n = at2 I b n.
Proof.
  intros Hc Ho Han Hl Hne Hout.
  destruct (out_of_image_masking_Some _ _ _ _ _ _ _ _ _ _ _ _ Ho)
    as (I' & Hp & _ & HIf).
  destruct (padding_demotion_Some _ _ _ _ _ _ _ _ _ _ _ _ Hp)
    as (P0 & I0 & argm & Hc' & _ & _ & _ & HP & HI & Hcl & _ & _ & _
        & HPe & HIe).
  rewrite Hc in Hc'. injection Hc' as <- <- <-.
  destruct (shape2_at2_lt _ _ _ _ _ _ Hcl Hl) as [Hb Hn].
  destruct (shape2_at2_is_Some _ _ P b n HP Hb Hn) as [p Hpbn].
  destruct (shape2_at2_is_Some _ _ I b n HI Hb Hn) as [i Hibn].
  rewrite HIf, HIe, HPe, Hpbn, Hibn, Hl, (out_mask_lookup _ _ _ _ Han).
  simpl. unfold out_of_image in Hout. rewrite Hout.
  rewrite bool_decide_eq_false_2 by done. simpl.
  by rewrite andb_true_r, !orb_false_r.
Qed.
End EncoderExtras.

(** The second entry of a batch of two, alone. *)
Lemma batch_entries_are_independent_witness :
  anchor_targets_bbox iou two_anchors (mkShape 1 100 100 3)
      [two_anchors] [[1; 0]%Z] 2 default_padding_value
      default_negative_overlap default_positive_overlap
    = Some ([[[F32.of_Z 0; F32.of_Z 0; F32.of_Z 0; F32.of_Z 0; F32.of_Z 1];
              [F32.of_Z 0; F32.of_Z 0; F32.of_Z 0; F32.of_Z 0; F32.of_Z 1]]],
            [[[F32.of_Z 0; F32.of_Z 1; F32.of_Z 1];
              [F32.of_Z 1; F32.of_Z 0; F32.of_Z 1]]]).
Proof.
  eapply (batch_entries_are_independent iou two_anchors (mkShape 2 100 100 3)
           [two_boxes; two_anchors] [[0; 1]%Z; [1; 0]%Z] 2
           default_padding_value
           default_negative_overlap default_positive_overlap
           _ _ 1 two_anchors [1; 0]%Z).
  - vm_compute. reflexivity.
  - reflexivity.
  - reflexivity.
  - reflexivity.
  - reflexivity.
Defined.

(** Two anchors and one image with two boxes and two labels. *)
Lemma encoder_returns_witness :
  ∃ R L,
    anchor_targets_bbox iou two_anchors (mkShape 1 100 100 3)
        [two_boxes] [[0; 1]%Z] 2 default_padding_value
        default_negative_overlap default_positive_overlap
      = Some (R, L).
Proof.
  apply (encoder_returns iou two_anchors (mkShape 1 100 100 3)
           [two_boxes] [[0; 1]%Z] 2 default_padding_value
           default_negative_overlap default_positive_overlap).
  - reflexivity.
  - discriminate.
  - repeat constructor.
  - repeat constructor.
Defined.

(** Both anchors of [two_anchors] are foreground: the last entry of their
    rows is 1. *)
Lemma output_layout_witness :
  ∃ s, (s = F32.of_Z (-1) ∨ s = F32.of_Z 0 ∨ s = F32.of_Z 1) ∧
       [F32.of_Z 0; F32.of_Z 0; F32.of_Z 0; F32.of_Z 0; F32.of_Z 1] !! 4
         = Some s ∧
       [F32.of_Z 0; F32.of_Z 1; F32.of_Z 1] !! 2 = Some s.
Proof.
  destruct (output_layout iou two_anchors (mkShape 1 100 100 3)
              [two_boxes] [[0; 1]%Z] 2 default_padding_value
              default_negative_overlap default_positive_overlap
              [[[F32.of_Z 0; F32.of_Z 0; F32.of_Z 0; F32.of_Z 0; F32.of_Z 1];
                [F32.of_Z 0; F32.of_Z 0; F32.of_Z 0; F32.of_Z 0; F32.of_Z 1]]]
              [[[F32.of_Z 0; F32.of_Z 1; F32.of_Z 1];
                [F32.of_Z 1; F32.of_Z 0; F32.of_Z 1]]]
              ltac:(vm_compute; reflexivity))
    as (_ & _ & _ & _ & _ & H).
  destruct (H 0 0 _ _ eq_refl eq_refl) as (_ & _ & Hs). exact Hs.
Defined.

(** The first anchor of [two_anchors] is positive with label 1. *)
Lemma class_row_by_state_witness :
  ∃ c, at2 [[[F32.of_Z 0; F32.of_Z 1; F32.of_Z 1];
             [F32.of_Z 1; F32.of_Z 0; F32.of_Z 1]]] 0 0 = Some c ∧
    ∀ k, k < 2 →
      c !! k = Some (if decide (1%Z = Z.of_nat k)
                     then F32.of_Z 1 else F32.of_Z 0).
Proof.
  apply (class_row_by_state iou two_anchors (mkShape 1 100 100 3)
           [two_boxes] [[0; 1]%Z] 2 default_padding_value
           default_negative_overlap default_positive_overlap
           [[[F32.of_Z 0; F32.of_Z 0; F32.of_Z 0; F32.of_Z 0; F32.of_Z 1];
             [F32.of_Z 0; F32.of_Z 0; F32.of_Z 0; F32.of_Z 0; F32.of_Z 1]]]
           [[[F32.of_Z 0; F32.of_Z 1; F32.of_Z 1];
             [F32.of_Z 1; F32.of_Z 0; F32.of_Z 1]]]
           [[true; true]] [[false; false]] [[1; 0]%Z] [(0, 1)%Z; (0, 0)%Z]
           0 0 true false 1%Z).
  - by vm_compute.
  - by vm_compute.
  - reflexivity.
  - reflexivity.
  - reflexivity.
Defined.

(** The first anchor of [two_anchors] against [two_boxes]. *)
Lemma regression_is_against_matched_box_witness :
  ∃ j g r,
    tf_argmax (overlap_row iou (bx 0 0 10 10) two_boxes) = Some j ∧
    two_boxes !! Z.to_nat j = Some g ∧
    at2 [[[F32.of_Z 0; F32.of_Z 0; F32.of_Z 0; F32.of_Z 0; F32.of_Z 1];
          [F32.of_Z 0; F32.of_Z 0; F32.of_Z 0; F32.of_Z 0; F32.of_Z 1]]] 0 0
      = Some r ∧
    take 4 r = regression_target (bx 0 0 10 10) g.
Proof.
  eapply (regression_is_against_matched_box iou two_anchors
           (mkShape 1 100 100 3) [two_boxes] [[0; 1]%Z] 2
           default_padding_value
           default_negative_overlap default_positive_overlap
           _ [[[F32.of_Z 0; F32.of_Z 1; F32.of_Z 1];
               [F32.of_Z 1; F32.of_Z 0; F32.of_Z 1]]]
           0 0 two_boxes (bx 0 0 10 10)).
  - by vm_compute.
  - reflexivity.
  - reflexivity.
Defined.

(** The first anchor of [two_anchors]: label 1, centre (5, 5) in an image of
    100 by 100. *)
Lemma real_match_inside_image_keeps_state_witness :
  at2 [[true; true]] 0 0 = at2 [[true; true]] 0 0 ∧
  at2 [[false; false]] 0 0 = at2 [[false; false]] 0 0.
Proof.
  apply (real_match_inside_image_keeps_state iou two_anchors
           (mkShape 1 100 100 3) [two_boxes] [[0; 1]%Z]
           default_padding_value
           default_negative_overlap default_positive_overlap
           [[true; true]] [[false; false]] [(0, 1)%Z; (0, 0)%Z]
           [[true; true]] [[false; false]] [[1; 0]%Z] [(0, 1)%Z; (0, 0)%Z]
           0 0 (bx 0 0 10 10) 1%Z).
  - by vm_compute.
  - by vm_compute.
  - reflexivity.
  - reflexivity.
  - by vm_compute.
  - by vm_compute.
Defined.

(** ** A box that is its own anchor *)

(** A finite number minus itself is [+0]. *)
Lemma SFsub_diag prec emax x :
  is_finite x = true → SFsub prec emax x x = S754_zero false.
Proof.
  destruct x as [[]| | |s m e]; try done. intros _. simpl.
  rewrite Z.min_id.
  set (z := cond_Zopp s _). by rewrite Z.sub_diag.
Qed.

(** One coordinate of the target of a box against itself. *)
Lemma zero_offset_target x w :
  is_finite x = true → is_nan w = false →
  f_eq w (S754_zero false) = false → is_subnormal F32.emax w = false →
  f_eq (F32.div (F32.sub (F32.div (F32.sub x x) w) (S754_zero false))
          (F32.cast (F64.div (F64.of_Z 1) (F64.of_Z 5))))
       (S754_zero false) = true.
Proof.
  intros Hx Hnan Hw0 Hsub.
  assert (F32.sub x x = S754_zero false) as ->.
  { unfold F32.sub, tf_op.
    by rewrite SFsub_diag by (by rewrite flush_is_finite). }
  unfold F32.div at 2. unfold tf_op. rewrite flush_zero, (flush_id _ _ Hsub).
  destruct w as [sw|sw| |sw mw ew]; try done; by destruct sw.
Qed.

(** Where the ground-truth box is the anchor itself, with finite corners
    and a width and a height other than zero, the four targets are zero
    (of either sign: the width and the height may be negative). *)
Theorem bbox_transform_of_the_anchor_itself anchors gt_boxes T b n a :
  bbox_transform anchors gt_boxes = Some T →
  anchors !! n = Some a → at2 gt_boxes b n = Some a →
  let a' := box_map F32.cast a in
  is_finite (x1 a') = true → is_finite (y1 a') = true →
  is_finite (x2 a') = true → is_finite (y2 a') = true →
  f_eq (F32.sub (x2 a') (x1 a')) (S754_zero false) = false →
  f_eq (F32.sub (y2 a') (y1 a')) (S754_zero false) = false →
  ∃ t, at2 T b n = Some t ∧ length t = 4 ∧
       Forall (λ d, f_eq d (S754_zero false) = true) t.
Proof.
  intros HT Ha Hg a' Hx1 Hy1 Hx2 Hy2 Hw Hh.
  pose proof (bbox_transform_at2 _ _ _ b n a a HT Ha Hg) as HTbn.
  cbv zeta in HTbn. fold a' in HTbn.
  eexists. split; [exact HTbn|]. split; [done|].
  assert (is_nan (F32.sub (x2 a') (x1 a')) = false) as Hwn
    by (apply tf_sub_not_nan; done).
  assert (is_nan (F32.sub (y2 a') (y1 a')) = false) as Hhn
    by (apply tf_sub_not_nan; done).
  repeat (apply Forall_cons_2;
          [by apply zero_offset_target; try apply tf_op_not_subnormal|]).
  apply Forall_nil_2.
Qed.

(** The anchor [(0, 0, 10, 10)] against itself. *)
Lemma bbox_transform_of_the_anchor_itself_witness :
  ∃ t, at2 [[[F32.of_Z 0; F32.of_Z 0; F32.of_Z 0; F32.of_Z 0]]] 0 0 = Some t ∧
       length t = 4 ∧
       Forall (λ d, f_eq d (S754_zero false) = true) t.
Proof.
  apply (bbox_transform_of_the_anchor_itself [bx 0 0 10 10] [[bx 0 0 10 10]]
           [[[F32.of_Z 0; F32.of_Z 0; F32.of_Z 0; F32.of_Z 0]]]
           0 0 (bx 0 0 10 10)).
  - by vm_compute.
  - reflexivity.
  - reflexivity.
  - by vm_compute.
  - by vm_compute.
  - by vm_compute.
  - by vm_compute.
  - by vm_compute.
  - by vm_compute.
Defined.
